(** * A users-and-posts REST service: handlers, validation and store

    Shallow embedding of [src/app.js]: an Express application whose seven
    routes validate the request body (express-validator), issue one or two
    calls to the ORM client (Prisma) and answer with a JSON document.

    - [Json]      : JSON documents, as the handlers build them.
    - [Validator] : validation chains, [validationResult] and [mapped].
    - [Prisma]    : the store, the calls the handlers make on the client, and
                    the monad (state, exceptions, call log) they run in.
    - [App]       : [userValidationRules], [postValidationRules],
                    [checkForErrors], the seven handlers and the routing.

    The properties of the service follow the definitions. *)

From Stdlib Require Import String Ascii List Bool ZArith Lia Arith.
From Stdlib Require Import Sorting.Sorted Sorting.Permutation.
From Stdlib Require Import DecimalString.
Import ListNotations.

Local Open Scope string_scope.
Local Open Scope list_scope.

(* ------------------------------------------------------------------ *)
(** ** JSON documents *)

Module Json.

#[local] Set Warnings "-register-all".

Inductive json : Type :=
| JNull
| JBool (b : bool)
| JNum (z : Z)
| JStr (s : string)
| JArr (items : list json)
| JObj (props : list (string * json)).

(** Property access [o.k] on an object literal; [None] is [undefined]. *)
Fixpoint assoc {V : Type} (k : string) (props : list (string * V)) : option V :=
  match props with
  | [] => None
  | (k', v) :: rest => if String.eqb k k' then Some v else assoc k rest
  end.

Definition field (k : string) (j : json) : option json :=
  match j with
  | JObj props => assoc k props
  | _ => None
  end.

Definition has_field (k : string) (j : json) : bool :=
  match field k j with Some _ => true | None => false end.

Definition is_bool (j : json) : bool :=
  match j with JBool _ => true | _ => false end.

Definition has_bool_field (k : string) (j : json) : bool :=
  match field k j with Some v => is_bool v | None => false end.

(** A string-to-string object, such as [errors.mapped()] with the
    message-only formatter, or a thrown literal [{ k: msg }]. *)
Definition of_messages (m : list (string * string)) : json :=
  JObj (map (fun km => (fst km, JStr (snd km))) m).

End Json.
Import Json.

(* ------------------------------------------------------------------ *)
(** ** Request bodies and validation chains *)

Module Validator.

(** The validator library is a dependency, not part of the sources.  Its
    standard validators work on text: a field holds a string or is absent,
    and every validator looks at the text of the field, where an absent
    field reads as the empty string.  [isIn] reads the listed values the
    same way, so a listed [undefined] is the empty string too. *)

(** [req.body] after [express.json()]: the properties the handlers read are
    strings; a property that is not there reads as [undefined] ([None]). *)
Definition body := list (string * string).

Definition prop (k : string) (b : body) : option string := assoc k b.

(** The string a validator looks at: an absent value counts as empty. *)
Definition text (v : option string) : string :=
  match v with Some s => s | None => "" end.

(** One link of a chain: a standard validator and its [withMessage]. *)
Record rule : Type := mkRule {
  check : option string -> bool;
  msg : string
}.

(** [body(param). ... ] : the field and its validators, in order. *)
Record chain : Type := mkChain {
  param : string;
  rules : list rule
}.

(** [.isLength({ min: 1 })] *)
Definition isLength_min1 (v : option string) : bool :=
  (1 <=? String.length (text v))%nat.

(** [.isEmail()], over the shape test of the validator library. *)
Definition isEmail (shape : string -> bool) (v : option string) : bool :=
  shape (text v).

(** [.isIn(values)]: the text of the field is one of the listed values,
    read as text. *)
Definition isIn (values : list (option string)) (v : option string) : bool :=
  existsb (String.eqb (text v)) (map text values).

(** Every validator of a chain runs; each one that fails records an error
    for the chain's field, in order. *)
Definition run_chain (b : body) (c : chain) : list (string * string) :=
  flat_map
    (fun r => if check r (prop (param c) b) then [] else [(param c, msg r)])
    (rules c).

(** [validationResult(req)] with [formatter: (err) => err.msg]: the errors
    of all chains of the route, in order, as (field, message). *)
Definition validationResult (cs : list chain) (b : body) : list (string * string) :=
  flat_map (run_chain b) cs.

Definition isEmpty (errors : list (string * string)) : bool :=
  match errors with [] => true | _ => false end.

(** [errors.mapped()]: the first error of each field. *)
Definition mapped_step (acc : list (string * string)) (e : string * string)
  : list (string * string) :=
  match assoc (fst e) acc with
  | Some _ => acc
  | None => acc ++ [e]
  end.

Definition mapped (errors : list (string * string)) : list (string * string) :=
  fold_left mapped_step errors [].

End Validator.
Import Validator.

(* ------------------------------------------------------------------ *)
(** ** The ORM client and its store *)

Module Prisma.

(** The client is generated from the schema and is not part of the sources.
    Its calls are given the behaviour their arguments and the data model
    state: unique emails and identifiers, roles of the enumeration, posts
    that belong to an existing user; [findFirst] answers [null] when nothing
    matches, while [update], [delete] and [connect] reject. *)

Inductive Role : Type := USER | ADMIN | SUPERUSER.

Definition role_name (r : Role) : string :=
  match r with USER => "USER" | ADMIN => "ADMIN" | SUPERUSER => "SUPERUSER" end.

Definition role_of_string (s : string) : option Role :=
  if String.eqb s "USER" then Some USER
  else if String.eqb s "ADMIN" then Some ADMIN
  else if String.eqb s "SUPERUSER" then Some SUPERUSER
  else None.

(** Modelled from the spec: the schema of the two entities
    (prisma/schema.prisma) is not among the sources.  A user has an
    identifier, a name, a unique email, a role of the enumeration or unset,
    and a creation timestamp; a post has an identifier, a title, a body, a
    creation timestamp and the user it belongs to. *)
Record User : Type := mkUser {
  u_uuid : string;
  u_name : string;
  u_email : string;
  u_role : option Role;
  u_createdAt : Z
}.

Record Post : Type := mkPost {
  p_uuid : string;
  p_title : string;
  p_body : string;
  p_createdAt : Z;
  p_userUuid : string
}.

(** The database: both tables in insertion order, the source of [now()]
    and the counter behind generated identifiers. *)
Record store : Type := mkStore {
  users : list User;
  posts : list Post;
  clock : Z;
  serial : nat
}.

Inductive call : Type :=
| UserFindFirst | UserCreate | UserFindMany | UserUpdate | UserDelete
| PostCreate | PostFindMany.

(** What a call on the client rejects with. *)
Inductive prisma_error : Type :=
| Unreachable
| UniqueConstraint (target : string)
| ForeignKeyConstraint
| RecordNotFound
| InvalidArguments.

(** What a [catch] clause can receive: an object literal thrown by the
    handler itself ([throw { k: m }]) or an error of the client. *)
Inductive thrown : Type :=
| Literal (k m : string)
| ClientError (e : prisma_error).

(** The client as the process sees it: the database, whether each coming
    call reaches it ([true] is a call that fails to), the calls made so far,
    and the properties its error objects show when they are serialised. *)
Record world : Type := mkWorld {
  db : store;
  faults : list bool;
  calls : list call;
  error_props : prisma_error -> list (string * json)
}.

Inductive outcome (A : Type) : Type :=
| Resolved (a : A)
| Rejected (e : thrown).
Arguments Resolved {A} a.
Arguments Rejected {A} e.

(** Computations of a handler: they read and write the world and may
    throw. *)
Definition M (A : Type) : Type := world -> outcome A * world.

Definition ret {A} (a : A) : M A := fun w => (Resolved a, w).

Definition throw {A} (e : thrown) : M A := fun w => (Rejected e, w).

Definition bind {A B} (c : M A) (k : A -> M B) : M B :=
  fun w =>
    match c w with
    | (Resolved a, w') => k a w'
    | (Rejected e, w') => (Rejected e, w')
    end.

(** [try { c } catch (error) { h error }] *)
Definition try_catch {A} (c : M A) (h : thrown -> M A) : M A :=
  fun w =>
    match c w with
    | (Resolved a, w') => (Resolved a, w')
    | (Rejected e, w') => h e w'
    end.

(** One awaited call on the client: it is logged, it consumes the next
    fault, and unless that fault strikes it runs the query on the store. *)
Definition query {A} (c : call) (q : store -> outcome A * store) : M A :=
  fun w =>
    let reached := negb (hd false (faults w)) in
    let w1 := mkWorld (db w) (tl (faults w)) (calls w ++ [c]) (error_props w) in
    if reached then
      let (r, s) := q (db w) in (r, mkWorld s (faults w1) (calls w1) (error_props w))
    else (Rejected (ClientError Unreachable), w1).

(** *** Queries on users *)

(** [where: { uuid, email }]; a field left [undefined] does not filter. *)
Record user_where : Type := mkWhere {
  w_uuid : option string;
  w_email : option string
}.

Definition filter_ok (f : option string) (actual : string) : bool :=
  match f with Some x => String.eqb x actual | None => true end.

Definition matches (wh : user_where) (u : User) : bool :=
  filter_ok (w_uuid wh) (u_uuid u) && filter_ok (w_email wh) (u_email u).

Definition by_uuid (id : string) : user_where := mkWhere (Some id) None.

Definition find_user (wh : user_where) (s : store) : option User :=
  find (matches wh) (users s).

(** Is there a persisted user with this identifier, with this email? *)
Definition uuid_known (id : string) (s : store) : bool :=
  existsb (fun u => String.eqb id (u_uuid u)) (users s).

Definition email_taken (e : string) (s : store) : bool :=
  existsb (fun u => String.eqb e (u_email u)) (users s).

(** [prisma.user.findFirst({ where })]: the record or [null]. *)
Definition user_findFirst (wh : user_where) : M (option User) :=
  query UserFindFirst (fun s => (Resolved (find_user wh s), s)).

Definition fresh_uuid (n : nat) : string :=
  NilEmpty.string_of_uint (Nat.to_uint n).

(** The role argument of create and update: [undefined], a member of the
    enumeration, or a value the client refuses. *)
Definition role_arg (r : option string) : option (option Role) :=
  match r with
  | None => Some None
  | Some s => match role_of_string s with Some x => Some (Some x) | None => None end
  end.

(** [prisma.user.create({ data: { name, email, role } })] *)
Definition create_user (name email role : option string) (s : store)
  : outcome User * store :=
  match name, email, role_arg role with
  | Some n, Some e, Some r =>
      if email_taken e s
      then (Rejected (ClientError (UniqueConstraint "email")), s)
      else if uuid_known (fresh_uuid (serial s)) s
      then (Rejected (ClientError (UniqueConstraint "uuid")), s)
      else
        let u := mkUser (fresh_uuid (serial s)) n e r (clock s) in
        (Resolved u, mkStore (users s ++ [u]) (posts s) (clock s + 1) (S (serial s)))
  | _, _, _ => (Rejected (ClientError InvalidArguments), s)
  end.

Definition user_create (name email role : option string) : M User :=
  query UserCreate (create_user name email role).

Definition or_keep {A} (new : option A) (old : A) : A :=
  match new with Some x => x | None => old end.

(** Replace the first element that satisfies [p]. *)
Fixpoint replace_first {A} (p : A -> bool) (x : A) (l : list A) : list A :=
  match l with
  | [] => []
  | y :: rest => if p y then x :: rest else y :: replace_first p x rest
  end.

(** Remove the first element that satisfies [p]. *)
Fixpoint remove_first {A} (p : A -> bool) (l : list A) : list A :=
  match l with
  | [] => []
  | y :: rest => if p y then rest else y :: remove_first p rest
  end.

(** [prisma.user.update({ where: { uuid }, data: { name, email, role } })];
    a data field left [undefined] keeps its value. *)
Definition update_user (id : string) (name email role : option string) (s : store)
  : outcome User * store :=
  match find_user (by_uuid id) s with
  | None => (Rejected (ClientError RecordNotFound), s)
  | Some old =>
      match role_arg role with
      | None => (Rejected (ClientError InvalidArguments), s)
      | Some r =>
          let e := or_keep email (u_email old) in
          if negb (String.eqb e (u_email old)) && email_taken e s
          then (Rejected (ClientError (UniqueConstraint "email")), s)
          else
            let u := mkUser (u_uuid old) (or_keep name (u_name old)) e
                            (match r with Some x => Some x | None => u_role old end)
                            (u_createdAt old) in
            (Resolved u,
             mkStore (replace_first (matches (by_uuid id)) u (users s))
                     (posts s) (clock s) (serial s))
      end
  end.

Definition user_update (id : string) (name email role : option string) : M User :=
  query UserUpdate (update_user id name email role).

(** [prisma.user.delete({ where: { uuid } })]: the record must exist, and
    a user that still has posts cannot go. *)
Definition delete_user (id : string) (s : store) : outcome User * store :=
  match find_user (by_uuid id) s with
  | None => (Rejected (ClientError RecordNotFound), s)
  | Some u =>
      if existsb (fun p => String.eqb (p_userUuid p) (u_uuid u)) (posts s)
      then (Rejected (ClientError ForeignKeyConstraint), s)
      else (Resolved u,
            mkStore (remove_first (matches (by_uuid id)) (users s))
                    (posts s) (clock s) (serial s))
  end.

Definition user_delete (id : string) : M User :=
  query UserDelete (delete_user id).

(** [orderBy: { createdAt: "desc" }]: newest first, records of equal
    timestamp in table order. *)
Fixpoint insert_desc {A} (key : A -> Z) (x : A) (l : list A) : list A :=
  match l with
  | [] => [x]
  | y :: rest =>
      if (key x <? key y)%Z then y :: insert_desc key x rest else x :: y :: rest
  end.

Definition order_desc {A} (key : A -> Z) (l : list A) : list A :=
  fold_right (insert_desc key) [] l.

(** What [select: { uuid, name, role, posts: { select: { title, body } } }]
    keeps of a user. *)
Record UserSummary : Type := mkSummary {
  s_uuid : string;
  s_name : string;
  s_role : option Role;
  s_posts : list (string * string)
}.

Definition posts_of (s : store) (u : User) : list Post :=
  filter (fun p => String.eqb (p_userUuid p) (u_uuid u)) (posts s).

Definition select_user (s : store) (u : User) : UserSummary :=
  mkSummary (u_uuid u) (u_name u) (u_role u)
            (map (fun p => (p_title p, p_body p)) (posts_of s u)).

(** [prisma.user.findMany({ orderBy: { createdAt: "desc" }, select })] *)
Definition user_findMany : M (list UserSummary) :=
  query UserFindMany
    (fun s => (Resolved (map (select_user s) (order_desc u_createdAt (users s))), s)).

(** *** Queries on posts *)

(** [prisma.post.create({ data: { title, body,
      user: { connect: { uuid: userUuid } } } })]: the user to connect must
    exist. *)
Definition create_post (title body userUuid : option string) (s : store)
  : outcome Post * store :=
  match title, body, userUuid with
  | Some t, Some b, Some owner =>
      match find_user (by_uuid owner) s with
      | None => (Rejected (ClientError RecordNotFound), s)
      | Some u =>
          let p := mkPost (fresh_uuid (serial s)) t b (clock s) (u_uuid u) in
          (Resolved p, mkStore (users s) (posts s ++ [p]) (clock s + 1) (S (serial s)))
      end
  | _, _, _ => (Rejected (ClientError InvalidArguments), s)
  end.

Definition post_create (title body userUuid : option string) : M Post :=
  query PostCreate (create_post title body userUuid).

Definition include_user (s : store) (p : Post) : Post * option User :=
  (p, find_user (by_uuid (p_userUuid p)) s).

(** [prisma.post.findMany({ orderBy: { createdAt: "desc" },
      include: { user: true } })] *)
Definition post_findMany : M (list (Post * option User)) :=
  query PostFindMany
    (fun s => (Resolved (map (include_user s) (order_desc p_createdAt (posts s))), s)).

End Prisma.
Import Prisma.

Declare Scope handler_scope.
Delimit Scope handler_scope with handler.
Notation "x <- c ;; k" := (bind c (fun x => k))
  (at level 100, c at next level, right associativity) : handler_scope.
Notation "c ;;; k" := (bind c (fun _ => k))
  (at level 100, right associativity) : handler_scope.

(* ------------------------------------------------------------------ *)
(** ** The application: rules, middleware and route handlers *)

Module App.

Local Open Scope handler_scope.

Inductive route : Type :=
| POST_users          (* app.post("/users")          *)
| GET_users           (* app.get("/users")           *)
| PUT_users_uuid      (* app.put("/users/:uuid")     *)
| DELETE_users_uuid   (* app.delete("/users/:uuid")  *)
| GET_users_uuid      (* app.get("/users/:uuid")     *)
| POST_posts          (* app.post("/posts")          *)
| GET_posts.          (* app.get("/posts")           *)

Record request : Type := mkRequest {
  target : route;
  params_uuid : string;       (* req.params.uuid *)
  req_body : body             (* req.body *)
}.

Record response : Type := mkResponse {
  status : nat;
  payload : json
}.

(** *** What [res.json] writes *)

Definition role_json (r : option Role) : json :=
  match r with Some x => JStr (role_name x) | None => JNull end.

Definition user_json (u : User) : json :=
  JObj [("uuid", JStr (u_uuid u)); ("name", JStr (u_name u));
        ("email", JStr (u_email u)); ("role", role_json (u_role u));
        ("createdAt", JNum (u_createdAt u))].

Definition post_fields (p : Post) : list (string * json) :=
  [("uuid", JStr (p_uuid p)); ("title", JStr (p_title p));
   ("body", JStr (p_body p)); ("createdAt", JNum (p_createdAt p));
   ("userUuid", JStr (p_userUuid p))].

Definition post_json (p : Post) : json := JObj (post_fields p).

Definition summary_json (u : UserSummary) : json :=
  JObj [("uuid", JStr (s_uuid u)); ("name", JStr (s_name u));
        ("role", role_json (s_role u));
        ("posts", JArr (map (fun tb => JObj [("title", JStr (fst tb));
                                             ("body", JStr (snd tb))])
                            (s_posts u)))].

Definition post_with_user_json (pu : Post * option User) : json :=
  JObj (post_fields (fst pu)
        ++ [("user", match snd pu with Some u => user_json u | None => JNull end)]).

(** The caught value, as it is serialised when a handler sends it: a thrown
    literal is its one property; an error object of the client is an object
    with the properties the client gave it. *)
Definition thrown_json (props : prisma_error -> list (string * json)) (e : thrown)
  : json :=
  match e with
  | Literal k m => of_messages [(k, m)]
  | ClientError c => JObj (props c)
  end.

(** [res.json(j)] and [res.status(n).json(j)] *)
Definition json_ (j : json) : M response := ret (mkResponse 200 j).
Definition status_json (n : nat) (j : json) : M response := ret (mkResponse n j).

(** [res.status(n).json({ success: false, error })] *)
Definition status_error (n : nat) (error : thrown) : M response :=
  fun w =>
    (Resolved (mkResponse n (JObj [("success", JBool false);
                                   ("error", thrown_json (error_props w) error)])),
     w).

Definition something_went_wrong : json :=
  JObj [("success", JBool false); ("error", JStr "Something went wrong")].

Definition when_ (c : bool) (e : thrown) : M unit :=
  if c then throw e else ret tt.

Definition truthy {A} (o : option A) : bool :=
  match o with Some _ => true | None => false end.

Section Routes.

(** The shape test behind [isEmail()] belongs to the validator library;
    the application is defined over it. *)
Variable rfc_email : string -> bool.

Definition userValidationRules : list chain :=
  [ mkChain "email"
      [ mkRule isLength_min1 "email can't be empty";
        mkRule (isEmail rfc_email) "Must be a valid email" ];
    mkChain "name" [ mkRule isLength_min1 "name can't be empty" ];
    mkChain "role"
      [ mkRule (isIn [Some "USER"; Some "ADMIN"; Some "SUPERUSER"; None])
          "Invalid Role, must be one of ['USER', 'ADMIN', 'SUPERUSER', undefined]" ] ].

Definition postValidationRules : list chain :=
  [ mkChain "title" [ mkRule isLength_min1 "title can't be empty" ];
    mkChain "body" [ mkRule isLength_min1 "post body can't be empty" ] ].

(** The middleware after the rules: answer 400 with the mapped errors,
    or pass on to [next]. *)
Definition checkForErrors (rules : list chain) (rq : request)
           (next : M response) : M response :=
  let errors := validationResult rules (req_body rq) in
  if negb (isEmpty errors) then status_json 400 (of_messages (mapped errors))
  else next.

(** Each handler is a [try] block and its [catch] clause; the block of
    each is named, [..._try], so that a request that fails is a request whose
    block throws. *)

(** Create *)
Definition post_users_try (rq : request) : M response :=
  let name := prop "name" (req_body rq) in
  let email := prop "email" (req_body rq) in
  let role := prop "role" (req_body rq) in
  existingUser <- user_findFirst (mkWhere None email) ;;
  when_ (truthy existingUser) (Literal "email" "email already exists") ;;;
  user <- user_create name email role ;;
  json_ (JObj [("success", JBool true); ("data", user_json user)]).

Definition post_users (rq : request) : M response :=
  try_catch (post_users_try rq) (fun error => status_error 400 error).

(** Read *)
Definition get_users_try (rq : request) : M response :=
  users <- user_findMany ;;
  json_ (JObj [("success", JBool true); ("data", JArr (map summary_json users))]).

Definition get_users (rq : request) : M response :=
  try_catch (get_users_try rq) (fun error => status_json 500 something_went_wrong).

(** Update *)
Definition put_users_uuid_try (rq : request) : M response :=
  let name := prop "name" (req_body rq) in
  let email := prop "email" (req_body rq) in
  let role := prop "role" (req_body rq) in
  let uuid := params_uuid rq in
  user <- user_findFirst (by_uuid uuid) ;;
  when_ (negb (truthy user)) (Literal "user" "user doesn't exists") ;;;
  user <- user_update uuid name email role ;;
  json_ (JObj [("success", JBool true); ("data", user_json user)]).

Definition put_users_uuid (rq : request) : M response :=
  try_catch (put_users_uuid_try rq) (fun error => status_error 404 error).

(** Delete *)
Definition delete_users_uuid_try (rq : request) : M response :=
  let uuid := params_uuid rq in
  user_delete uuid ;;;
  json_ (JObj [("success", JBool true); ("message", JStr "User deleted")]).

Definition delete_users_uuid (rq : request) : M response :=
  try_catch (delete_users_uuid_try rq)
            (fun error => status_json 500 something_went_wrong).

(** Find *)
Definition get_users_uuid_try (rq : request) : M response :=
  let uuid := params_uuid rq in
  user <- user_findFirst (by_uuid uuid) ;;
  match user with
  | None => throw (Literal "user" "user doesn't exists")
  | Some u => json_ (JObj [("success", JBool true); ("data", user_json u)])
  end.

Definition get_users_uuid (rq : request) : M response :=
  try_catch (get_users_uuid_try rq)
            (fun error => status_json 404 something_went_wrong).

(** Create Post *)
Definition post_posts_try (rq : request) : M response :=
  let userUuid := prop "userUuid" (req_body rq) in
  let title := prop "title" (req_body rq) in
  let body := prop "body" (req_body rq) in
  post <- post_create title body userUuid ;;
  json_ (JObj [("success", JBool true); ("data", post_json post)]).

Definition post_posts (rq : request) : M response :=
  try_catch (post_posts_try rq) (fun error => status_error 500 error).

(** Read all Posts *)
Definition get_posts_try (rq : request) : M response :=
  posts <- post_findMany ;;
  json_ (JObj [("success", JBool true);
               ("data", JArr (map post_with_user_json posts))]).

Definition get_posts (rq : request) : M response :=
  try_catch (get_posts_try rq) (fun error => status_json 500 something_went_wrong).

(** The [try] block of the handler of a request. *)
Definition attempt (rq : request) : M response :=
  match target rq with
  | POST_users => post_users_try rq
  | GET_users => get_users_try rq
  | PUT_users_uuid => put_users_uuid_try rq
  | DELETE_users_uuid => delete_users_uuid_try rq
  | GET_users_uuid => get_users_uuid_try rq
  | POST_posts => post_posts_try rq
  | GET_posts => get_posts_try rq
  end.

(** The validation rules a route is registered with. *)
Definition rules_of (r : route) : list chain :=
  match r with
  | POST_users | PUT_users_uuid => userValidationRules
  | POST_posts => postValidationRules
  | _ => []
  end.

(** A request through its route: the three validated routes run
    [checkForErrors] before their handler, the others their handler
    alone. *)
Definition serve (rq : request) : M response :=
  match target rq with
  | POST_users => checkForErrors userValidationRules rq (post_users rq)
  | GET_users => get_users rq
  | PUT_users_uuid => checkForErrors userValidationRules rq (put_users_uuid rq)
  | DELETE_users_uuid => delete_users_uuid rq
  | GET_users_uuid => get_users_uuid rq
  | POST_posts => checkForErrors postValidationRules rq (post_posts rq)
  | GET_posts => get_posts rq
  end.

(** Running a request on a world: the response that is sent, if the
    route's promise resolves, and the world the request leaves. *)
Definition respond (rq : request) (w : world) : option response * world :=
  match serve rq w with
  | (Resolved r, w') => (Some r, w')
  | (Rejected _, w') => (None, w')
  end.

Definition sent (rq : request) (w : world) : option response :=
  fst (respond rq w).

Definition after (rq : request) (w : world) : world :=
  snd (respond rq w).

End Routes.

End App.
Import App.

(* ------------------------------------------------------------------ *)
(** ** Reading the responses *)

Module Reading.

(** The envelope [{ success: boolean, data|error|message }]. *)
Definition is_envelope (j : json) : bool :=
  has_bool_field "success" j
  && (has_field "data" j || has_field "error" j || has_field "message" j).

(** The envelope of a failure that carries the caught value, as the client
    of world [w] serialises it. *)
Definition failure_with (w : world) (e : thrown) : json :=
  JObj [("success", JBool false); ("error", thrown_json (error_props w) e)].

(** Does the body of a request get past the rules of its route? *)
Definition valid (rfc_email : string -> bool) (rq : request) : bool :=
  isEmpty (validationResult (rules_of rfc_email (target rq)) (req_body rq)).


Definition empty (v : option string) : bool := String.eqb (text v) "".

(** The role reads as one of the enumeration or as the empty text: it is
    USER, ADMIN or SUPERUSER, or it is absent or the empty string. *)
Definition allowed_role (v : option string) : bool :=
  empty v || truthy (role_of_string (text v)).


Definition entry (k : string) (m : option string) : list (string * string) :=
  match m with Some x => [(k, x)] | None => [] end.

(** The message each failing field of a user body is to get. *)
Definition email_failure (rfc_email : string -> bool) (b : body) : option string :=
  if empty (prop "email" b) then Some "email can't be empty"
  else if rfc_email (text (prop "email" b)) then None
  else Some "Must be a valid email".

Definition name_failure (b : body) : option string :=
  if empty (prop "name" b) then Some "name can't be empty" else None.

Definition role_failure (b : body) : option string :=
  if allowed_role (prop "role" b) then None
  else Some "Invalid Role, must be one of ['USER', 'ADMIN', 'SUPERUSER', undefined]".

Definition expected_user_errors (rfc_email : string -> bool) (b : body)
  : list (string * string) :=
  entry "email" (email_failure rfc_email b)
  ++ entry "name" (name_failure b)
  ++ entry "role" (role_failure b).

Definition expected_post_errors (b : body) : list (string * string) :=
  entry "title" (if empty (prop "title" b) then Some "title can't be empty" else None)
  ++ entry "body" (if empty (prop "body" b) then Some "post body can't be empty" else None).

(** Newest first. *)
Definition newest_first {A} (key : A -> Z) (l : list A) : Prop :=
  StronglySorted (fun a b => (key b <= key a)%Z) l.

(** The routes that only read. *)
Definition is_read (r : route) : bool :=
  match r with
  | GET_users | GET_users_uuid | GET_posts => true
  | _ => false
  end.

(** The calls a handler awaits, in the order it awaits them. *)
Definition script (r : route) : list call :=
  match r with
  | POST_users => [UserFindFirst; UserCreate]
  | GET_users => [UserFindMany]
  | PUT_users_uuid => [UserFindFirst; UserUpdate]
  | DELETE_users_uuid => [UserDelete]
  | GET_users_uuid => [UserFindFirst]
  | POST_posts => [PostCreate]
  | GET_posts => [PostFindMany]
  end.

(** The statuses a route sends: 200 from [res.json], the others from its
    [res.status(...)] calls and, on validated routes, from [checkForErrors]. *)
Definition statuses (r : route) : list nat :=
  match r with
  | POST_users => [200; 400]
  | GET_users => [200; 500]
  | PUT_users_uuid => [200; 400; 404]
  | DELETE_users_uuid => [200; 500]
  | GET_users_uuid => [200; 404]
  | POST_posts => [200; 400; 500]
  | GET_posts => [200; 500]
  end.

End Reading.
Import Reading.

(* ------------------------------------------------------------------ *)
(** ** A small database to run the routes on *)

Module Sample.

(** A stand-in for the library's shape test: something before an [@]. *)
Definition at_sign_shape (s : string) : bool :=
  match index 0 "@" s with Some (S _) => true | _ => false end.

Definition alice : User := mkUser "u1" "Alice" "alice@example.org" (Some ADMIN) 5.
Definition bob : User := mkUser "u2" "Bob" "bob@example.org" None 9.
Definition hello : Post := mkPost "p1" "Hello" "First post" 6 "u1".
Definition again : Post := mkPost "p2" "Again" "Second post" 8 "u1".

Definition two_users : store := mkStore [alice; bob] [hello; again] 10 7.

(** A stand-in for the properties of the client's error objects: a code. *)
Definition code_only (e : prisma_error) : list (string * json) :=
  match e with
  | Unreachable => [("code", JStr "P1001")]
  | UniqueConstraint _ => [("code", JStr "P2002")]
  | ForeignKeyConstraint => [("code", JStr "P2003")]
  | RecordNotFound => [("code", JStr "P2025")]
  | InvalidArguments => []
  end.

(** Every call reaches the database. *)
Definition quiet : world := mkWorld two_users [] [] code_only.

(** The next call does not. *)
Definition down : world := mkWorld two_users [true] [] code_only.

End Sample.
Import Sample.

(* ------------------------------------------------------------------ *)
(** ** Worked requests *)

Example create_then_find :
  let create := mkRequest POST_users "" [("name", "Carol"); ("email", "carol@example.org")] in
  let find := mkRequest GET_users_uuid "7" [] in
  let carol := mkUser "7" "Carol" "carol@example.org" None 10 in
  sent at_sign_shape create quiet
  = Some (mkResponse 200 (JObj [("success", JBool true); ("data", user_json carol)]))
  /\ sent at_sign_shape find (after at_sign_shape create quiet)
     = Some (mkResponse 200 (JObj [("success", JBool true); ("data", user_json carol)]))
  /\ calls (after at_sign_shape find (after at_sign_shape create quiet))
     = [UserFindFirst; UserCreate; UserFindFirst].
Proof. repeat split. Qed.

Example update_keeps_absent_role :
  let rq := mkRequest PUT_users_uuid "u1"
                      [("name", "Alice L."); ("email", "alice@example.org")] in
  option_map payload (sent at_sign_shape rq quiet)
  = Some (JObj [("success", JBool true);
                ("data", user_json (mkUser "u1" "Alice L." "alice@example.org"
                                           (Some ADMIN) 5))]).
Proof. reflexivity. Qed.

Example delete_then_list :
  let rq := mkRequest DELETE_users_uuid "u2" [] in
  sent at_sign_shape rq quiet
  = Some (mkResponse 200 (JObj [("success", JBool true); ("message", JStr "User deleted")]))
  /\ users (db (after at_sign_shape rq quiet)) = [alice].
Proof. split; reflexivity. Qed.

Example post_for_unknown_user :
  let rq := mkRequest POST_posts ""
                      [("title", "Hi"); ("body", "There"); ("userUuid", "nobody")] in
  sent at_sign_shape rq quiet
  = Some (mkResponse 500 (JObj [("success", JBool false);
                                ("error", JObj [("code", JStr "P2025")])])).
Proof. reflexivity. Qed.

Example empty_post_body :
  sent at_sign_shape (mkRequest POST_posts "" []) quiet
  = Some (mkResponse 400 (JObj [("title", JStr "title can't be empty");
                                ("body", JStr "post body can't be empty")])).
Proof. reflexivity. Qed.

(* ------------------------------------------------------------------ *)
(** ** Facts about the store and the queries *)

Lemma find_user_unknown (id : string) (s : store) :
  uuid_known id s = false -> find_user (by_uuid id) s = None.
Proof.
  unfold uuid_known, find_user, matches, by_uuid; simpl.
  induction (users s) as [|u us IH]; simpl; [reflexivity|].
  destruct (String.eqb id (u_uuid u)); simpl; [discriminate|exact IH].
Qed.

Lemma find_user_by_email (e : string) (s : store) :
  email_taken e s = true ->
  exists u, find_user (mkWhere None (Some e)) s = Some u.
Proof.
  unfold email_taken, find_user, matches; simpl.
  induction (users s) as [|u us IH]; simpl; [discriminate|].
  destruct (String.eqb e (u_email u)); simpl; [eauto|exact IH].
Qed.

Lemma find_user_sound (wh : user_where) (s : store) (u : User) :
  find_user wh s = Some u -> In u (users s) /\ matches wh u = true.
Proof. unfold find_user; intros H; exact (find_some _ _ H). Qed.

Lemma matches_by_uuid (id : string) (u : User) :
  matches (by_uuid id) u = true -> u_uuid u = id.
Proof.
  unfold matches, by_uuid; simpl; rewrite andb_true_r.
  intros H; apply String.eqb_eq in H; congruence.
Qed.


(** A call that does not reach the database rejects, whatever the query. *)
Lemma query_unreached {A} (c : call) (q : store -> outcome A * store) (w : world) :
  hd false (faults w) = true ->
  query c q w
  = (Rejected (ClientError Unreachable),
     mkWorld (db w) (tl (faults w)) (calls w ++ [c]) (error_props w)).
Proof. unfold query; intros ->; reflexivity. Qed.

Lemma query_reached {A} (c : call) (q : store -> outcome A * store) (w : world) :
  hd false (faults w) = false ->
  query c q w
  = (fst (q (db w)),
     mkWorld (snd (q (db w))) (tl (faults w)) (calls w ++ [c]) (error_props w)).
Proof. unfold query; intros ->; simpl; destruct (q (db w)); reflexivity. Qed.

(** Unfolding a request down to the queries it makes. *)
Ltac run_route :=
  unfold sent, after, respond, serve, checkForErrors,
    post_users, get_users, put_users_uuid, delete_users_uuid, get_users_uuid,
    post_posts, get_posts,
    post_users_try, get_users_try, put_users_uuid_try, delete_users_uuid_try,
    get_users_uuid_try, post_posts_try, get_posts_try,
    try_catch, bind, when_, json_, status_json, status_error, ret, throw,
    user_findFirst, user_create, user_update, user_delete, user_findMany,
    post_create, post_findMany.

Ltac split_fault w :=
  let F := fresh "F" in
  destruct (hd false (faults w)) eqn:F;
  [ rewrite !(query_unreached _ _ _ F) | rewrite !(query_reached _ _ _ F) ].

(* ------------------------------------------------------------------ *)
(** ** Unknown identifiers *)

(** C1 (as amended). A GET /users/:uuid request, and a PUT /users/:uuid
    request whose body passes validation, is answered with status 404 when
    its uuid matches no persisted user. *)
Theorem unknown_uuid_get_put_404 (rfc_email : string -> bool) (rq : request) (w : world) :
  target rq = GET_users_uuid
  \/ (target rq = PUT_users_uuid
      /\ validationResult (userValidationRules rfc_email) (req_body rq) = []) ->
  uuid_known (params_uuid rq) (db w) = false ->
  option_map status (sent rfc_email rq w) = Some 404.
Proof.
  intros Hroute Hunknown.
  apply find_user_unknown in Hunknown.
  destruct Hroute as [Hget | [Hput Hvalid]]; run_route.
  - rewrite Hget. split_fault w; simpl; [reflexivity|].
    rewrite Hunknown; reflexivity.
  - rewrite Hput, Hvalid; simpl. split_fault w; simpl; [reflexivity|].
    rewrite Hunknown; reflexivity.
Qed.

Lemma unknown_uuid_get_put_404_witness :
  let rq := mkRequest PUT_users_uuid "nobody"
                      [("name", "Carol"); ("email", "carol@example.org")] in
  uuid_known (params_uuid rq) (db quiet) = false
  /\ option_map status (sent at_sign_shape rq quiet) = Some 404.
Proof.
  intros rq. split; [reflexivity|].
  apply unknown_uuid_get_put_404; [right; split; reflexivity | reflexivity].
Defined.

(** C1, as stated, fails on PUT: the body is validated before the user is
    looked up, so an unknown uuid with an invalid body is answered 400. *)
Lemma put_unknown_uuid_invalid_body_400 :
  let rq := mkRequest PUT_users_uuid "nobody" [("name", ""); ("email", "carol@example.org")] in
  uuid_known (params_uuid rq) (db quiet) = false
  /\ option_map status (sent at_sign_shape rq quiet) = Some 400
  /\ option_map status (sent at_sign_shape rq quiet) <> Some 404.
Proof. intros rq. split; [|split]; [reflexivity | reflexivity | discriminate]. Qed.

(** C8. A DELETE /users/:uuid request whose uuid matches no persisted user is
    answered with status 500 and the body
    [{ success: false, error: "Something went wrong" }], not with 404. *)
Theorem delete_unknown_uuid_500 (rfc_email : string -> bool) (rq : request) (w : world) :
  target rq = DELETE_users_uuid ->
  uuid_known (params_uuid rq) (db w) = false ->
  sent rfc_email rq w
  = Some (mkResponse 500 (JObj [("success", JBool false);
                                ("error", JStr "Something went wrong")])).
Proof.
  intros Hroute Hunknown.
  apply find_user_unknown in Hunknown.
  run_route. rewrite Hroute. split_fault w; simpl; [reflexivity|].
  unfold delete_user. rewrite Hunknown; reflexivity.
Qed.

Lemma delete_unknown_uuid_500_witness :
  let rq := mkRequest DELETE_users_uuid "nobody" [] in
  uuid_known (params_uuid rq) (db quiet) = false
  /\ sent at_sign_shape rq quiet
     = Some (mkResponse 500 (JObj [("success", JBool false);
                                   ("error", JStr "Something went wrong")])).
Proof.
  intros rq. split; [reflexivity|].
  apply delete_unknown_uuid_500; reflexivity.
Defined.

(* ------------------------------------------------------------------ *)
(** ** Duplicate emails *)

(** C2. A POST /users request whose email is the email of an already
    persisted user is answered with status 400. *)
Theorem duplicate_email_400 (rfc_email : string -> bool) (rq : request) (w : world) (e : string) :
  target rq = POST_users ->
  prop "email" (req_body rq) = Some e ->
  email_taken e (db w) = true ->
  option_map status (sent rfc_email rq w) = Some 400.
Proof.
  intros Hroute Hemail Htaken.
  destruct (find_user_by_email _ _ Htaken) as [u Hu].
  run_route. rewrite Hroute.
  destruct (validationResult _ _); simpl; [|reflexivity].
  split_fault w; simpl; [reflexivity|].
  rewrite Hemail, Hu; reflexivity.
Qed.

Lemma duplicate_email_400_witness :
  let rq := mkRequest POST_users ""
                      [("name", "Alice II"); ("email", "alice@example.org")] in
  email_taken "alice@example.org" (db quiet) = true
  /\ option_map status (sent at_sign_shape rq quiet) = Some 400.
Proof.
  intros rq. split; [reflexivity|].
  apply (duplicate_email_400 at_sign_shape rq quiet "alice@example.org"); reflexivity.
Defined.

(** C10. A POST /users request whose email is the email of an already
    persisted user issues no create to the ORM: the calls it adds to the log
    contain no [UserCreate], and the database is left as it was. *)
Theorem duplicate_email_no_create (rfc_email : string -> bool) (rq : request) (w : world) (e : string) :
  target rq = POST_users ->
  prop "email" (req_body rq) = Some e ->
  email_taken e (db w) = true ->
  db (after rfc_email rq w) = db w
  /\ exists issued, calls (after rfc_email rq w) = calls w ++ issued
                    /\ ~ In UserCreate issued.
Proof.
  intros Hroute Hemail Htaken.
  destruct (find_user_by_email _ _ Htaken) as [u Hu].
  run_route. rewrite Hroute.
  destruct (validationResult _ _); simpl.
  - split_fault w; simpl.
    + split; [reflexivity|]. exists [UserFindFirst]; split; [reflexivity|].
      intros [H|[]]; discriminate.
    + rewrite Hemail, Hu; simpl. split; [reflexivity|].
      exists [UserFindFirst]; split; [reflexivity|].
      intros [H|[]]; discriminate.
  - split; [reflexivity|]. exists []; split; [now rewrite app_nil_r|intros []].
Qed.

Lemma duplicate_email_no_create_witness :
  let rq := mkRequest POST_users ""
                      [("name", "Alice II"); ("email", "alice@example.org")] in
  email_taken "alice@example.org" (db quiet) = true
  /\ db (after at_sign_shape rq quiet) = db quiet
  /\ exists issued, calls (after at_sign_shape rq quiet) = calls quiet ++ issued
                    /\ ~ In UserCreate issued.
Proof.
  intros rq. split; [reflexivity|].
  apply (duplicate_email_no_create at_sign_shape rq quiet "alice@example.org"); reflexivity.
Defined.

(* ------------------------------------------------------------------ *)
(** ** Validation *)

Lemma assoc_app {V : Type} (k : string) (l1 l2 : list (string * V)) :
  assoc k (l1 ++ l2)
  = match assoc k l1 with Some v => Some v | None => assoc k l2 end.
Proof.
  induction l1 as [|[k' v] l1 IH]; simpl; [reflexivity|].
  destruct (String.eqb k k'); [reflexivity|exact IH].
Qed.

Lemma assoc_none_keys {V : Type} (k : string) (l : list (string * V)) :
  assoc k l = None <-> ~ In k (map fst l).
Proof.
  induction l as [|[k' v] l IH]; simpl; [tauto|].
  destruct (String.eqb_spec k k') as [->|Hne].
  - split; [discriminate|]. intros H; exfalso; apply H; now left.
  - rewrite IH. split; [intros H [E|I]; [congruence|tauto] | tauto].
Qed.

Lemma field_of_messages (k : string) (m : list (string * string)) :
  field k (of_messages m) = option_map JStr (assoc k m).
Proof.
  unfold of_messages, field.
  induction m as [|[k' v] m IH]; simpl; [reflexivity|].
  destruct (String.eqb k k'); [reflexivity|exact IH].
Qed.

Lemma isLength_min1_empty (v : option string) : isLength_min1 v = negb (empty v).
Proof. unfold isLength_min1, empty; destruct (text v); reflexivity. Qed.

Lemma isIn_allowed_role (v : option string) :
  isIn [Some "USER"; Some "ADMIN"; Some "SUPERUSER"; None] v = allowed_role v.
Proof.
  unfold isIn, allowed_role, empty, role_of_string; cbn [map text existsb].
  destruct (String.eqb (text v) "USER"), (String.eqb (text v) "ADMIN"),
    (String.eqb (text v) "SUPERUSER"), (String.eqb (text v) ""); reflexivity.
Qed.


(** The errors the user rules record, chain by chain. *)
Lemma user_rules_errors (rfc_email : string -> bool) (b : body) :
  validationResult (userValidationRules rfc_email) b
  = (if empty (prop "email" b) then [("email", "email can't be empty")] else [])
    ++ (if rfc_email (text (prop "email" b)) then []
        else [("email", "Must be a valid email")])
    ++ entry "name" (name_failure b)
    ++ entry "role" (role_failure b).
Proof.
  unfold validationResult, userValidationRules, run_chain, name_failure, role_failure.
  cbn [flat_map rules param check msg].
  rewrite !isLength_min1_empty, isIn_allowed_role; unfold isEmail.
  destruct (empty (prop "email" b)), (rfc_email (text (prop "email" b))),
    (empty (prop "name" b)), (allowed_role (prop "role" b)); reflexivity.
Qed.

Lemma user_rules_mapped (rfc_email : string -> bool) (b : body) :
  mapped (validationResult (userValidationRules rfc_email) b)
  = expected_user_errors rfc_email b.
Proof.
  rewrite user_rules_errors.
  unfold expected_user_errors, email_failure, name_failure, role_failure.
  destruct (empty (prop "email" b)), (rfc_email (text (prop "email" b))),
    (empty (prop "name" b)), (allowed_role (prop "role" b)); reflexivity.
Qed.


Lemma post_rules_mapped (b : body) :
  mapped (validationResult postValidationRules b) = expected_post_errors b.
Proof.
  unfold validationResult, postValidationRules, run_chain, expected_post_errors.
  cbn [flat_map rules param check msg].
  rewrite !isLength_min1_empty.
  destruct (empty (prop "title" b)), (empty (prop "body" b)); reflexivity.
Qed.

(** The body of a validation failure is keyed by fields of the request, none
    of which is [success]. *)
Lemma user_errors_no_success (rfc_email : string -> bool) (b : body) :
  has_field "success" (of_messages (expected_user_errors rfc_email b)) = false.
Proof.
  unfold expected_user_errors.
  destruct (email_failure rfc_email b), (name_failure b), (role_failure b); reflexivity.
Qed.

Lemma post_errors_no_success (b : body) :
  has_field "success" (of_messages (expected_post_errors b)) = false.
Proof.
  unfold expected_post_errors.
  destruct (empty (prop "title" b)), (empty (prop "body" b)); reflexivity.
Qed.




(* ------------------------------------------------------------------ *)
(** ** The shape of the responses *)

(** *** Reasoning through the monad *)

Lemma bind_resolved {A B} (c : M A) (k : A -> M B) (w w' : world) (b : B) :
  bind c k w = (Resolved b, w') ->
  exists a w1, c w = (Resolved a, w1) /\ k a w1 = (Resolved b, w').
Proof.
  unfold bind. destruct (c w) as [[a|e] w1]; intros H; [eauto | discriminate].
Qed.

Lemma bind_rejected {A B} (c : M A) (k : A -> M B) (w w' : world) (e : thrown) :
  bind c k w = (Rejected e, w') ->
  c w = (Rejected e, w')
  \/ exists a w1, c w = (Resolved a, w1) /\ k a w1 = (Rejected e, w').
Proof.
  unfold bind. destruct (c w) as [[a|e0] w1]; intros H; [right; eauto|].
  inversion H; subst; left; reflexivity.
Qed.

(** A [try]/[catch] answers with what its body resolved to, or with what its
    handler makes of the value the body threw. *)
Lemma try_catch_cases {A} (c : M A) (h : thrown -> M A) (w : world) :
  (exists a w', c w = (Resolved a, w') /\ try_catch c h w = (Resolved a, w'))
  \/ (exists e w', c w = (Rejected e, w') /\ try_catch c h w = h e w').
Proof.
  unfold try_catch. destruct (c w) as [[a|e] w']; [left | right]; eauto.
Qed.

Lemma json_resolved (j : json) (w w' : world) (r : response) :
  json_ j w = (Resolved r, w') -> r = mkResponse 200 j /\ w' = w.
Proof. unfold json_, ret; intros H; inversion H; auto. Qed.

Lemma when_resolved (c : bool) (e : thrown) (w w' : world) (u : unit) :
  when_ c e w = (Resolved u, w') -> c = false /\ w' = w.
Proof. unfold when_; destruct c; unfold throw, ret; intros H; inversion H; auto. Qed.


(** Inverting the body of a handler, one awaited step after the other. *)
Ltac invert_body H :=
  repeat (let a := fresh "a" in
          let w1 := fresh "w" in
          let Hc := fresh "Hstep" in
          apply bind_resolved in H; destruct H as (a & w1 & Hc & H)).

(** Each handler resolves, and with an envelope. *)
Lemma handlers_send_envelopes (rq : request) (w : world) (h : request -> M response) :
  In h [post_users; get_users; put_users_uuid; delete_users_uuid; get_users_uuid;
        post_posts; get_posts] ->
  exists r w', h rq w = (Resolved r, w') /\ is_envelope (payload r) = true.
Proof.
  intros Hh; simpl in Hh.
  repeat (destruct Hh as [<- | Hh];
          [ match goal with
            | |- exists r w', ?f rq w = _ /\ _ => unfold f
            end;
            match goal with
            | |- context [try_catch ?c ?h] =>
                destruct (try_catch_cases c h w) as [(a & w' & Hc & ->) | (e & w' & _ & ->)]
            end;
            [ exists a, w'; split; [reflexivity|]
            | eexists; eexists; split; [reflexivity|reflexivity] ] | ]);
    try destruct Hh.
  all: invert_body Hc;
    try match type of Hc with
        | (match ?x with _ => _ end) _ = _ => destruct x; [|discriminate]
        end;
    apply json_resolved in Hc as [-> _]; reflexivity.
Qed.

(** C4 (as amended). Every request is answered.  When the body passes the
    rules of its route, whatever the handler then meets (success, not found,
    any other failure), the body of the response is an envelope: a boolean
    [success] with a [data], [error] or [message].  When the body fails them,
    the response is 400 with the mapped errors, which carry no [success]. *)
Theorem responses_after_validation (rfc_email : string -> bool) (rq : request) (w : world) :
  exists r,
    sent rfc_email rq w = Some r
    /\ if valid rfc_email rq then is_envelope (payload r) = true
       else r = mkResponse 400
                  (of_messages
                     (mapped (validationResult (rules_of rfc_email (target rq))
                                               (req_body rq))))
            /\ has_field "success" (payload r) = false.
Proof.
  assert (Hh : forall h,
             In h [post_users; get_users; put_users_uuid; delete_users_uuid;
                   get_users_uuid; post_posts; get_posts] ->
             exists r, fst (let (o, w') := h rq w in
                            match o with
                            | Resolved r => (Some r, w')
                            | Rejected _ => (None, w')
                            end) = Some r
                       /\ is_envelope (payload r) = true).
  { intros h Hin.
    destruct (handlers_send_envelopes rq w h Hin) as (r & w' & -> & He).
    exists r; auto. }
  unfold valid, sent, respond, serve, checkForErrors.
  destruct (target rq); cbn [rules_of];
    try (apply Hh; simpl; tauto);
    destruct (isEmpty _) eqn:Hempty; cbn [negb];
    try (apply Hh; simpl; tauto);
    unfold status_json, ret; cbn [fst payload];
    eexists; (split; [reflexivity|]); (split; [reflexivity|]).
  - rewrite user_rules_mapped; apply user_errors_no_success.
  - rewrite user_rules_mapped; apply user_errors_no_success.
  - rewrite post_rules_mapped; apply post_errors_no_success.
Qed.

(** C4, as stated, fails on the validation path: the body sent by
    [checkForErrors] is the mapped errors alone. *)
Lemma validation_failure_is_no_envelope :
  let rq := mkRequest POST_users "" [("name", "Carol"); ("email", "carol")] in
  sent at_sign_shape rq quiet
  = Some (mkResponse 400 (JObj [("email", JStr "Must be a valid email")]))
  /\ has_bool_field "success" (JObj [("email", JStr "Must be a valid email")]) = false
  /\ is_envelope (JObj [("email", JStr "Must be a valid email")]) = false.
Proof. intros rq. split; [|split]; reflexivity. Qed.

(* ------------------------------------------------------------------ *)
(** ** The role *)







(* ------------------------------------------------------------------ *)
(** ** What a success returns *)

(** The document of a user determines the whole record. *)
Lemma user_json_inj (u v : User) : user_json u = user_json v -> u = v.
Proof.
  destruct u as [i n e r c], v as [i' n' e' r' c']; unfold user_json; simpl.
  intros H; inversion H; subst.
  assert (r = r') as ->; [|reflexivity].
  destruct r as [[]|], r' as [[]|]; simpl in *; congruence.
Qed.









Lemma sent_served (rfc_email : string -> bool) (rq : request) (w : world) (r : response) :
  sent rfc_email rq w = Some r ->
  serve rfc_email rq w = (Resolved r, after rfc_email rq w).
Proof.
  unfold sent, after, respond.
  destruct (serve rfc_email rq w) as [[r0|e] w']; simpl; intros H; inversion H; reflexivity.
Qed.




(* ------------------------------------------------------------------ *)
(** ** What a failure returns *)

(** Case analysis on everything a request depends on: its route, the outcome
    of validation, the faults, and the answer of each query, innermost
    first. *)
Ltac step_cases :=
  cbv beta iota zeta;
  cbn [fst snd db faults calls error_props status payload negb hd tl isEmpty
       option_map target params_uuid req_body];
  match goal with
  | |- context [match ?x with _ => _ end] =>
      lazymatch x with
      | context [match _ with _ => _ end] => fail
      | _ => destruct x eqn:?
      end
  end.

Ltac route_cases :=
  unfold attempt; run_route; unfold query; repeat step_cases;
  cbv beta iota zeta;
  cbn [fst snd db faults calls error_props status payload negb hd tl isEmpty
       option_map target params_uuid req_body].




(* ------------------------------------------------------------------ *)
(** ** The order of the lists *)

Section OrderDesc.

Context {A : Type} (key : A -> Z).

Lemma insert_desc_perm (x : A) (l : list A) :
  Permutation (insert_desc key x l) (x :: l).
Proof.
  induction l as [|y l IH]; simpl; [reflexivity|].
  destruct (key x <? key y)%Z; [|reflexivity].
  rewrite IH. apply perm_swap.
Qed.

Lemma order_desc_perm (l : list A) : Permutation (order_desc key l) l.
Proof.
  induction l as [|x l IH]; simpl; [reflexivity|].
  rewrite insert_desc_perm. now constructor.
Qed.

Lemma insert_desc_sorted (x : A) (l : list A) :
  newest_first key l -> newest_first key (insert_desc key x l).
Proof.
  unfold newest_first.
  induction l as [|y l IH]; simpl; intros Hl.
  - constructor; constructor.
  - apply StronglySorted_inv in Hl as [Hl Hy].
    destruct (Z.ltb_spec (key x) (key y)) as [Hlt|Hge].
    + constructor; [now apply IH|].
      rewrite (insert_desc_perm x l). constructor; [lia|exact Hy].
    + constructor; [now constructor|].
      constructor; [exact Hge|].
      rewrite Forall_forall in Hy |- *. intros z Hz. specialize (Hy z Hz). lia.
Qed.

Lemma order_desc_sorted (l : list A) : newest_first key (order_desc key l).
Proof.
  induction l as [|x l IH]; simpl; [constructor|].
  now apply insert_desc_sorted.
Qed.

End OrderDesc.

(** C9. When its query reaches the database, GET /users and GET /posts
    answer 200 with the persisted records listed by creation timestamp in
    descending order, newest first: the users as their selected fields, the
    posts each with its user. *)
Theorem lists_newest_first (rfc_email : string -> bool) (rq : request) (w : world) :
  hd false (faults w) = false ->
  (target rq = GET_users ->
   exists us,
     Permutation us (users (db w))
     /\ newest_first u_createdAt us
     /\ sent rfc_email rq w
        = Some (mkResponse 200
                  (JObj [("success", JBool true);
                         ("data", JArr (map (fun u => summary_json (select_user (db w) u))
                                            us))])))
  /\ (target rq = GET_posts ->
      exists ps,
        Permutation ps (posts (db w))
        /\ newest_first p_createdAt ps
        /\ sent rfc_email rq w
           = Some (mkResponse 200
                     (JObj [("success", JBool true);
                            ("data", JArr (map (fun p => post_with_user_json
                                                           (include_user (db w) p))
                                               ps))]))).
Proof.
  intros Hreach. split; intros Hroute.
  - exists (order_desc u_createdAt (users (db w))).
    split; [apply order_desc_perm|]. split; [apply order_desc_sorted|].
    run_route. rewrite Hroute, (query_reached _ _ _ Hreach); simpl.
    rewrite map_map. reflexivity.
  - exists (order_desc p_createdAt (posts (db w))).
    split; [apply order_desc_perm|]. split; [apply order_desc_sorted|].
    run_route. rewrite Hroute, (query_reached _ _ _ Hreach); simpl.
    rewrite map_map. reflexivity.
Qed.

Lemma lists_newest_first_witness :
  let rq := mkRequest GET_posts "" [] in
  hd false (faults quiet) = false
  /\ exists ps,
       Permutation ps (posts (db quiet))
       /\ newest_first p_createdAt ps
       /\ sent at_sign_shape rq quiet
          = Some (mkResponse 200
                    (JObj [("success", JBool true);
                           ("data", JArr (map (fun p => post_with_user_json
                                                          (include_user (db quiet) p))
                                              ps))])).
Proof.
  intros rq. split; [reflexivity|].
  apply (lists_newest_first at_sign_shape rq quiet); reflexivity.
Defined.


(* ------------------------------------------------------------------ *)
(** ** Further properties of the routes *)

Lemma validation_body_no_success (rfc_email : string -> bool) (r : route) (b : body) :
  field "success" (of_messages (mapped (validationResult (rules_of rfc_email r) b)))
  = None.
Proof.
  assert (H : forall j, has_field "success" j = false -> field "success" j = None).
  { intros j; unfold has_field; destruct (field "success" j); congruence. }
  apply H. destruct r; cbn [rules_of]; try reflexivity.
  - rewrite user_rules_mapped; apply user_errors_no_success.
  - rewrite user_rules_mapped; apply user_errors_no_success.
  - rewrite post_rules_mapped; apply post_errors_no_success.
Qed.

(** X1. Each route answers every request, with one of the statuses its code
    names, and the status is 200 exactly when the body says
    [success: true]. *)
Theorem route_statuses (rfc_email : string -> bool) (rq : request) (w : world) :
  exists r,
    sent rfc_email rq w = Some r
    /\ In (status r) (statuses (target rq))
    /\ (status r = 200 <-> field "success" (payload r) = Some (JBool true)).
Proof.
  pose proof (validation_body_no_success rfc_email POST_users (req_body rq)) as Hu.
  pose proof (validation_body_no_success rfc_email POST_posts (req_body rq)) as Hp.
  cbn [rules_of] in Hu, Hp.
  route_cases;
    (eexists; split; [reflexivity|]; split; [simpl; tauto|]);
    cbn [status payload]; try rewrite Hu; try rewrite Hp;
    split; intros H; try discriminate H; reflexivity.
Qed.

(** *** Validation *)

Lemma mapped_from (errors acc : list (string * string)) (k : string) :
  assoc k (fold_left mapped_step errors acc)
  = match assoc k acc with Some m => Some m | None => assoc k errors end.
Proof.
  revert acc. induction errors as [|[k' m] errors IH]; intros acc; simpl.
  - destruct (assoc k acc); reflexivity.
  - rewrite IH. unfold mapped_step; simpl.
    destruct (assoc k' acc) eqn:Hk'.
    + destruct (assoc k acc) eqn:Hk; [reflexivity|].
      destruct (String.eqb_spec k k') as [->|_]; [congruence|reflexivity].
    + rewrite assoc_app. destruct (assoc k acc); [reflexivity|]. simpl.
      destruct (String.eqb k k'); reflexivity.
Qed.

Lemma mapped_keys_from (errors acc : list (string * string)) :
  NoDup (map fst acc) -> NoDup (map fst (fold_left mapped_step errors acc)).
Proof.
  revert acc. induction errors as [|[k m] errors IH]; intros acc Hacc; simpl; [exact Hacc|].
  apply IH. unfold mapped_step; simpl.
  destruct (assoc k acc) eqn:Hk; [exact Hacc|].
  rewrite map_app; simpl.
  apply NoDup_app; [exact Hacc | repeat constructor; intros [] | ].
  intros x Hx [<-|[]]. now apply assoc_none_keys in Hk.
Qed.

(** X2. A request whose body fails the rules of its route stops at
    [checkForErrors]: it is answered 400, no call is made on the client, and
    the world is left exactly as it was. *)
Theorem validation_failure_stops (rfc_email : string -> bool) (rq : request) (w : world) :
  valid rfc_email rq = false ->
  option_map status (sent rfc_email rq w) = Some 400
  /\ after rfc_email rq w = w.
Proof.
  unfold valid, sent, after, respond, serve, checkForErrors.
  destruct (target rq); cbn [rules_of]; intros H; try discriminate H;
    rewrite H; split; reflexivity.
Qed.

Lemma validation_failure_stops_witness :
  let rq := mkRequest POST_posts "" [("title", "Hi")] in
  valid at_sign_shape rq = false
  /\ option_map status (sent at_sign_shape rq down) = Some 400
  /\ after at_sign_shape rq down = down.
Proof.
  intros rq. split; [reflexivity|].
  apply (validation_failure_stops at_sign_shape rq down); reflexivity.
Defined.

(** X3. The body of a validation failure has each failing field once, with
    the first message recorded for it, and nothing for the other fields. *)
Theorem validation_failure_first_messages
        (rfc_email : string -> bool) (rq : request) (w : world) :
  valid rfc_email rq = false ->
  exists m,
    sent rfc_email rq w = Some (mkResponse 400 (of_messages m))
    /\ NoDup (map fst m)
    /\ forall k,
         field k (of_messages m)
         = option_map JStr
             (assoc k (validationResult (rules_of rfc_email (target rq)) (req_body rq))).
Proof.
  intros H.
  exists (mapped (validationResult (rules_of rfc_email (target rq)) (req_body rq))).
  split; [|split].
  - revert H. unfold valid, sent, respond, serve, checkForErrors.
    destruct (target rq); cbn [rules_of]; intros H; try discriminate H;
      rewrite H; reflexivity.
  - apply mapped_keys_from; constructor.
  - intros k. rewrite field_of_messages. unfold mapped. rewrite mapped_from. reflexivity.
Qed.

Lemma validation_failure_first_messages_witness :
  let rq := mkRequest POST_users "" [("name", "Carol")] in
  valid at_sign_shape rq = false
  /\ exists m,
       sent at_sign_shape rq quiet = Some (mkResponse 400 (of_messages m))
       /\ NoDup (map fst m)
       /\ forall k,
            field k (of_messages m)
            = option_map JStr
                (assoc k [("email", "email can't be empty");
                          ("email", "Must be a valid email")]).
Proof.
  intros rq. split; [reflexivity|].
  apply (validation_failure_first_messages at_sign_shape rq quiet); reflexivity.
Defined.

Lemma post_rules_isEmpty (b : body) :
  isEmpty (validationResult postValidationRules b)
  = negb (empty (prop "title" b) || empty (prop "body" b)).
Proof.
  unfold validationResult, postValidationRules, run_chain.
  cbn [flat_map rules param check msg].
  rewrite !isLength_min1_empty.
  destruct (empty (prop "title" b)), (empty (prop "body" b)); reflexivity.
Qed.

(** X4. A POST /posts request with an empty or absent title or body is
    answered 400 with a body that maps each of the two that fails, and only
    those, to its message. *)
Theorem invalid_post_body_400 (rfc_email : string -> bool) (rq : request) (w : world) :
  target rq = POST_posts ->
  empty (prop "title" (req_body rq)) || empty (prop "body" (req_body rq)) = true ->
  expected_post_errors (req_body rq) <> []
  /\ sent rfc_email rq w
     = Some (mkResponse 400 (of_messages (expected_post_errors (req_body rq)))).
Proof.
  intros Hroute Hinvalid. split.
  - revert Hinvalid. unfold expected_post_errors.
    destruct (empty (prop "title" (req_body rq))),
      (empty (prop "body" (req_body rq))); simpl; congruence.
  - unfold sent, respond, serve, checkForErrors. rewrite Hroute.
    rewrite post_rules_isEmpty, Hinvalid; cbn [negb].
    rewrite post_rules_mapped; reflexivity.
Qed.

Lemma invalid_post_body_400_witness :
  let rq := mkRequest POST_posts "" [("title", "Hi"); ("body", ""); ("userUuid", "u1")] in
  empty (prop "title" (req_body rq)) || empty (prop "body" (req_body rq)) = true
  /\ sent at_sign_shape rq quiet
     = Some (mkResponse 400 (JObj [("body", JStr "post body can't be empty")])).
Proof.
  intros rq. split; [reflexivity|].
  apply (invalid_post_body_400 at_sign_shape rq quiet); reflexivity.
Defined.

(** *** What each call does to the store *)

Lemma create_user_effect (name email role : option string) (s s' : store)
      (o : outcome User) :
  create_user name email role s = (o, s') ->
  (s' = s /\ exists x, o = Rejected x)
  \/ (exists u,
        o = Resolved u
        /\ s' = mkStore (users s ++ [u]) (posts s) (clock s + 1) (S (serial s))
        /\ name = Some (u_name u) /\ email = Some (u_email u)
        /\ role_arg role = Some (u_role u)
        /\ u_createdAt u = clock s
        /\ email_taken (u_email u) s = false
        /\ uuid_known (u_uuid u) s = false).
Proof.
  unfold create_user.
  destruct name as [n|], email as [e|], (role_arg role) as [r|];
    try solve [intros H; inversion H; left; eauto].
  destruct (email_taken e s) eqn:He; [intros H; inversion H; left; eauto|].
  destruct (uuid_known _ s) eqn:Hu; [intros H; inversion H; left; eauto|].
  intros H; inversion H; subst. right. eexists. repeat split; simpl; auto.
Qed.

Lemma update_user_effect (id : string) (name email role : option string)
      (s s' : store) (o : outcome User) :
  update_user id name email role s = (o, s') ->
  (s' = s /\ exists x, o = Rejected x)
  \/ (exists old u,
        o = Resolved u
        /\ find_user (by_uuid id) s = Some old
        /\ s' = mkStore (replace_first (matches (by_uuid id)) u (users s))
                        (posts s) (clock s) (serial s)
        /\ u_uuid u = u_uuid old /\ u_createdAt u = u_createdAt old
        /\ u_name u = or_keep name (u_name old)
        /\ u_email u = or_keep email (u_email old)
        /\ (u_email u = u_email old \/ email_taken (u_email u) s = false)
        /\ u_role u = match role with
                      | None => u_role old
                      | Some x => role_of_string x
                      end).
Proof.
  unfold update_user.
  destruct (find_user (by_uuid id) s) as [old|] eqn:Hold;
    [|intros H; inversion H; left; eauto].
  destruct (role_arg role) as [r|] eqn:Hr; [|intros H; inversion H; left; eauto].
  destruct (negb _ && _) eqn:Hdup; intros H; inversion H; subst; [left; eauto|].
  right. exists old. eexists. repeat split; simpl; auto.
  - apply andb_false_iff in Hdup as [Hsame | Hfree]; [left|right; exact Hfree].
    apply negb_false_iff, String.eqb_eq in Hsame. exact Hsame.
  - unfold role_arg in Hr. destruct role as [x|]; [|now inversion Hr].
    destruct (role_of_string x); inversion Hr; reflexivity.
Qed.

Lemma delete_user_effect (id : string) (s s' : store) (o : outcome User) :
  delete_user id s = (o, s') ->
  (s' = s /\ exists x, o = Rejected x)
  \/ (exists u,
        o = Resolved u
        /\ find_user (by_uuid id) s = Some u
        /\ s' = mkStore (remove_first (matches (by_uuid id)) (users s))
                        (posts s) (clock s) (serial s)
        /\ existsb (fun p => String.eqb (p_userUuid p) (u_uuid u)) (posts s) = false).
Proof.
  unfold delete_user.
  destruct (find_user (by_uuid id) s) as [u|] eqn:Hu;
    [|intros H; inversion H; left; eauto].
  destruct (existsb _ (posts s)) eqn:Hp; intros H; inversion H; subst; [left; eauto|].
  right. exists u. auto.
Qed.

Lemma create_post_effect (title body userUuid : option string) (s s' : store)
      (o : outcome Post) :
  create_post title body userUuid s = (o, s') ->
  (s' = s /\ exists x, o = Rejected x)
  \/ (exists p u,
        o = Resolved p
        /\ s' = mkStore (users s) (posts s ++ [p]) (clock s + 1) (S (serial s))
        /\ title = Some (p_title p) /\ body = Some (p_body p)
        /\ userUuid = Some (p_userUuid p)
        /\ find_user (by_uuid (p_userUuid p)) s = Some u
        /\ p_createdAt p = clock s).
Proof.
  unfold create_post.
  destruct title as [t|], body as [b|], userUuid as [owner|];
    try solve [intros H; inversion H; left; eauto].
  destruct (find_user (by_uuid owner) s) as [u|] eqn:Hu;
    intros H; inversion H; subst; [|left; eauto].
  right. eexists. exists u. simpl.
  pose proof (find_user_sound _ _ _ Hu) as [_ Hm]. apply matches_by_uuid in Hm.
  rewrite Hm. repeat split; auto.
Qed.

(** Bringing the effect of the write a request made, if any, into the
    context. *)
Ltac write_effect :=
  match goal with
  | H : create_user _ _ _ _ = _ |- _ => apply create_user_effect in H
  | H : update_user _ _ _ _ _ = _ |- _ => apply update_user_effect in H
  | H : delete_user _ _ = _ |- _ => apply delete_user_effect in H
  | H : create_post _ _ _ _ = _ |- _ => apply create_post_effect in H
  end.

(** X5. The calls a request makes on the client are an initial part of the
    script of its route: at most two, in the order of the source, and a
    create or update only after the lookup before it. *)
Theorem calls_follow_script (rfc_email : string -> bool) (rq : request) (w : world) :
  exists n,
    calls (after rfc_email rq w) = calls w ++ firstn n (script (target rq)).
Proof.
  route_cases;
    first [ exists 0; cbn [firstn script]; rewrite app_nil_r; reflexivity
          | exists 1; cbn [firstn script]; reflexivity
          | exists 2; cbn [firstn script]; rewrite <- app_assoc; reflexivity ].
Qed.

(** X6. The database changes only when a writing route answers 200: the
    three GET routes, and every request answered with another status, leave
    it as it was. *)
Theorem store_changes_only_on_success
        (rfc_email : string -> bool) (rq : request) (w : world) :
  is_read (target rq) = true
  \/ option_map status (sent rfc_email rq w) <> Some 200 ->
  db (after rfc_email rq w) = db w.
Proof.
  route_cases; cbn [is_read];
    (intros [H|H]; [try discriminate H | try (exfalso; apply H; reflexivity)]);
    try reflexivity;
    try congruence.
  all: write_effect;
    match goal with
    | E : _ \/ _ |- _ =>
        destruct E as [[-> _] | E];
        [reflexivity | exfalso; clear - E; firstorder discriminate]
    end.
Qed.

Lemma store_changes_only_on_success_witness :
  let rq := mkRequest DELETE_users_uuid "u1" [] in
  option_map status (sent at_sign_shape rq quiet) <> Some 200
  /\ db (after at_sign_shape rq quiet) = db quiet.
Proof.
  intros rq.
  assert (H : option_map status (sent at_sign_shape rq quiet) <> Some 200)
    by (vm_compute; discriminate).
  split; [exact H|].
  apply (store_changes_only_on_success at_sign_shape rq quiet). right. exact H.
Defined.

Lemma replace_first_map {A B} (f : A -> B) (p : A -> bool) (x old : A) (l : list A) :
  find p l = Some old -> f x = f old ->
  map f (replace_first p x l) = map f l.
Proof.
  induction l as [|y l IH]; simpl; [discriminate|].
  destruct (p y); intros H E.
  - inversion H; subst. simpl. now rewrite E.
  - simpl. now rewrite IH.
Qed.

Lemma remove_first_split {A} (p : A -> bool) (x : A) (l : list A) :
  find p l = Some x ->
  exists l1 l2,
    l = l1 ++ x :: l2 /\ remove_first p l = l1 ++ l2
    /\ forall y, In y l1 -> p y = false.
Proof.
  induction l as [|y l IH]; simpl; [discriminate|].
  destruct (p y) eqn:Hy; intros H.
  - inversion H; subst. exists [], l. simpl. repeat split; tauto.
  - destruct (IH H) as (l1 & l2 & -> & Hr & Hl1).
    exists (y :: l1), l2. simpl. rewrite Hr. repeat split.
    intros z [<-|Hz]; auto.
Qed.

(** X7. Each route touches only its own part of the store.  POST /users
    leaves the posts and at most appends one user; PUT /users/:uuid leaves the
    posts and neither adds nor removes a user nor changes an identifier or a
    creation timestamp; DELETE /users/:uuid leaves the posts and at most takes
    out one user, of the requested uuid; POST /posts leaves the users and at
    most appends one post; the GET routes change nothing. *)
Theorem route_frame (rfc_email : string -> bool) (rq : request) (w : world) :
  let s := db w in
  let s' := db (after rfc_email rq w) in
  match target rq with
  | POST_users =>
      posts s' = posts s
      /\ (users s' = users s \/ exists u, users s' = users s ++ [u])
  | PUT_users_uuid =>
      posts s' = posts s
      /\ map u_uuid (users s') = map u_uuid (users s)
      /\ map u_createdAt (users s') = map u_createdAt (users s)
  | DELETE_users_uuid =>
      posts s' = posts s
      /\ (users s' = users s
          \/ exists before u behind,
               users s = before ++ u :: behind
               /\ users s' = before ++ behind
               /\ u_uuid u = params_uuid rq)
  | POST_posts =>
      users s' = users s
      /\ (posts s' = posts s \/ exists p, posts s' = posts s ++ [p])
  | _ => s' = s
  end.
Proof.
  intros s s'; subst s s'.
  route_cases; try reflexivity; try (split; [reflexivity|]; auto; fail);
    write_effect;
    match goal with
    | E : _ \/ _ |- _ => destruct E as [[-> _] | E]; [auto|]
    end.
  1-2: match goal with
       | E : exists _, _ |- _ => destruct E as (u & _ & -> & _)
       end; simpl; split; [reflexivity | right; eauto].
  1-2: match goal with
       | E : exists _, _ |- _ => destruct E as (old & u & _ & Hf & -> & Hid & Hc & _)
       end; simpl; split; [reflexivity|];
       split; eapply replace_first_map; eauto.
  1-2: match goal with
       | E : exists _, _ |- _ => destruct E as (u & _ & Hf & -> & _)
       end; simpl; split; [reflexivity | right];
       destruct (remove_first_split _ _ _ Hf) as (l1 & l2 & H1 & H2 & _);
       exists l1, u, l2; repeat split; auto;
       apply find_user_sound in Hf as [_ Hm]; now apply matches_by_uuid.
  1-2: match goal with
       | E : exists _, _ |- _ => destruct E as (p & u & _ & -> & _)
       end; simpl; split; [reflexivity | right; eauto].
Qed.

(** *** What gets past validation *)

Lemma not_empty_some (v : option string) :
  empty v = false -> exists x, v = Some x /\ x <> "".
Proof.
  unfold empty. destruct v as [x|]; simpl; [|discriminate].
  intros H. exists x. split; [reflexivity|].
  intros ->. discriminate H.
Qed.



Lemma valid_post_fields (b : body) :
  validationResult postValidationRules b = [] ->
  exists t x, prop "title" b = Some t /\ t <> "" /\ prop "body" b = Some x /\ x <> "".
Proof.
  intros Hv.
  pose proof (post_rules_isEmpty b) as H. rewrite Hv in H.
  symmetry in H. apply negb_true_iff, orb_false_iff in H as [Ht Hb].
  apply not_empty_some in Ht as (t & Ht & Ht0).
  apply not_empty_some in Hb as (x & Hb & Hb0).
  exists t, x. auto.
Qed.

Lemma isEmpty_nil (errors : list (string * string)) :
  isEmpty errors = true -> errors = [].
Proof. destruct errors; [reflexivity|discriminate]. Qed.


(** X8. A POST /users request that passes validation and reaches the
    database with an email already in use is answered 400 with
    [{ success: false, error: { email: "email already exists" } }]. *)
Theorem duplicate_email_body
        (rfc_email : string -> bool) (rq : request) (w : world) (e : string) :
  target rq = POST_users ->
  valid rfc_email rq = true ->
  hd false (faults w) = false ->
  prop "email" (req_body rq) = Some e ->
  email_taken e (db w) = true ->
  sent rfc_email rq w
  = Some (mkResponse 400
            (JObj [("success", JBool false);
                   ("error", JObj [("email", JStr "email already exists")])])).
Proof.
  intros Hroute Hvalid Hreach Hemail Htaken.
  destruct (find_user_by_email _ _ Htaken) as [u Hu].
  unfold valid in Hvalid. rewrite Hroute in Hvalid; cbn [rules_of] in Hvalid.
  run_route. rewrite Hroute, Hvalid; cbn [negb].
  rewrite (query_reached _ _ _ Hreach); simpl.
  rewrite Hemail, Hu; reflexivity.
Qed.

Lemma duplicate_email_body_witness :
  let rq := mkRequest POST_users ""
                      [("name", "Alice II"); ("email", "alice@example.org")] in
  email_taken "alice@example.org" (db quiet) = true
  /\ sent at_sign_shape rq quiet
     = Some (mkResponse 400
               (JObj [("success", JBool false);
                      ("error", JObj [("email", JStr "email already exists")])])).
Proof.
  intros rq. split; [reflexivity|].
  apply (duplicate_email_body at_sign_shape rq quiet "alice@example.org"); reflexivity.
Defined.

(** X9. A PUT /users/:uuid request that passes validation and reaches the
    database with a uuid of no persisted user is answered 404 with
    [{ success: false, error: { user: "user doesn't exists" } }], and the
    update is never issued: the lookup is its only call. *)
Theorem put_unknown_user_body
        (rfc_email : string -> bool) (rq : request) (w : world) :
  target rq = PUT_users_uuid ->
  valid rfc_email rq = true ->
  hd false (faults w) = false ->
  uuid_known (params_uuid rq) (db w) = false ->
  sent rfc_email rq w
  = Some (mkResponse 404
            (JObj [("success", JBool false);
                   ("error", JObj [("user", JStr "user doesn't exists")])]))
  /\ calls (after rfc_email rq w) = calls w ++ [UserFindFirst].
Proof.
  intros Hroute Hvalid Hreach Hunknown.
  apply find_user_unknown in Hunknown.
  unfold valid in Hvalid. rewrite Hroute in Hvalid; cbn [rules_of] in Hvalid.
  run_route. rewrite Hroute, Hvalid; cbn [negb].
  rewrite (query_reached _ _ _ Hreach); simpl.
  rewrite Hunknown; simpl. split; reflexivity.
Qed.

Lemma put_unknown_user_body_witness :
  let rq := mkRequest PUT_users_uuid "nobody"
                      [("name", "Carol"); ("email", "carol@example.org")] in
  uuid_known (params_uuid rq) (db quiet) = false
  /\ sent at_sign_shape rq quiet
     = Some (mkResponse 404
               (JObj [("success", JBool false);
                      ("error", JObj [("user", JStr "user doesn't exists")])]))
  /\ calls (after at_sign_shape rq quiet) = calls quiet ++ [UserFindFirst].
Proof.
  intros rq. split; [reflexivity|].
  apply (put_unknown_user_body at_sign_shape rq quiet); reflexivity.
Defined.

(** *** Creating users *)

Lemma checkForErrors_200 (rules : list chain) (rq : request) (next : M response)
      (w w' : world) (r : response) :
  checkForErrors rules rq next w = (Resolved r, w') ->
  status r = 200 ->
  validationResult rules (req_body rq) = [] /\ next w = (Resolved r, w').
Proof.
  unfold checkForErrors, status_json, ret.
  destruct (validationResult rules (req_body rq)); cbn [isEmpty negb]; [auto|].
  intros H; inversion H; subst; discriminate.
Qed.

Lemma post_users_200 (rq : request) (w w' : world) (r : response) :
  post_users rq w = (Resolved r, w') ->
  status r = 200 ->
  exists u,
    r = mkResponse 200 (JObj [("success", JBool true); ("data", user_json u)])
    /\ db w' = mkStore (users (db w) ++ [u]) (posts (db w))
                       (clock (db w) + 1) (S (serial (db w)))
    /\ prop "name" (req_body rq) = Some (u_name u)
    /\ prop "email" (req_body rq) = Some (u_email u)
    /\ role_arg (prop "role" (req_body rq)) = Some (u_role u)
    /\ u_createdAt u = clock (db w)
    /\ email_taken (u_email u) (db w) = false
    /\ uuid_known (u_uuid u) (db w) = false.
Proof.
  route_cases; intros H Hs; inversion H; subst; try discriminate Hs.
  write_effect.
  match goal with
  | E : _ \/ _ |- _ =>
      destruct E as [[_ [x E]] | (u & E & -> & Hrest)];
      [ discriminate E
      | inversion E; subst; exists u;
        split; [reflexivity|]; split; [reflexivity|]; exact Hrest ]
  end.
Qed.

Lemma find_app_last {A} (p : A -> bool) (l : list A) (x : A) :
  (forall y, In y l -> p y = false) -> p x = true -> find p (l ++ [x]) = Some x.
Proof.
  induction l as [|y l IH]; simpl; intros Hl Hx; [now rewrite Hx|].
  rewrite (Hl y (or_introl eq_refl)). apply IH; auto.
Qed.

Lemma uuid_unknown_all (id : string) (s : store) :
  uuid_known id s = false ->
  forall u, In u (users s) -> matches (by_uuid id) u = false.
Proof.
  unfold uuid_known, matches, by_uuid; simpl. intros H u Hu.
  rewrite andb_true_r.
  destruct (String.eqb id (u_uuid u)) eqn:E; [|reflexivity].
  assert (existsb (fun u => String.eqb id (u_uuid u)) (users s) = true)
    by (apply existsb_exists; eauto).
  congruence.
Qed.

Lemma matches_own_uuid (u : User) : matches (by_uuid (u_uuid u)) u = true.
Proof. unfold matches, by_uuid; simpl. now rewrite String.eqb_refl. Qed.

Lemma email_taken_In (u : User) (s : store) :
  In u (users s) -> email_taken (u_email u) s = true.
Proof.
  intros Hu. unfold email_taken. apply existsb_exists.
  exists u. split; [exact Hu | apply String.eqb_refl].
Qed.

Lemma sent_200 (rfc_email : string -> bool) (rq : request) (w : world) (r : response) :
  sent rfc_email rq w = Some r ->
  status r = 200 ->
  match target rq with
  | POST_users => post_users rq w
  | GET_users => get_users rq w
  | PUT_users_uuid => put_users_uuid rq w
  | DELETE_users_uuid => delete_users_uuid rq w
  | GET_users_uuid => get_users_uuid rq w
  | POST_posts => post_posts rq w
  | GET_posts => get_posts rq w
  end = (Resolved r, after rfc_email rq w).
Proof.
  intros Hsent Hs. apply sent_served in Hsent. unfold serve in Hsent.
  destruct (target rq); try exact Hsent;
    apply checkForErrors_200 in Hsent as [_ H]; auto.
Qed.



(** X11. A user that POST /users has created is found: when the request
    was answered 200 with a record, a GET /users/:uuid for the uuid of that
    record, run next and reaching the database, is answered 200 with the same
    record. *)
Theorem created_user_is_found
        (rfc_email : string -> bool) (rq : request) (w : world)
        (r : response) (u : User) (b : body) :
  target rq = POST_users ->
  sent rfc_email rq w = Some r ->
  status r = 200 ->
  field "data" (payload r) = Some (user_json u) ->
  hd false (faults (after rfc_email rq w)) = false ->
  sent rfc_email (mkRequest GET_users_uuid (u_uuid u) b) (after rfc_email rq w)
  = Some (mkResponse 200 (JObj [("success", JBool true); ("data", user_json u)])).
Proof.
  intros Hroute Hsent Hs Hdata Hreach.
  pose proof (sent_200 _ _ _ _ Hsent Hs) as Hh. rewrite Hroute in Hh.
  apply post_users_200 in Hh as (u' & -> & Hdb & _ & _ & _ & _ & _ & Hnew); [|exact Hs].
  assert (Hj : Some (user_json u') = Some (user_json u)) by exact Hdata.
  apply (f_equal (fun o => match o with Some j => j | None => JNull end)) in Hj.
  apply user_json_inj in Hj. subst u'.
  run_route; cbn [target params_uuid].
  rewrite (query_reached _ _ _ Hreach); cbn [fst snd].
  unfold find_user. rewrite Hdb; cbn [users].
  rewrite (find_app_last _ _ _ (uuid_unknown_all _ _ Hnew) (matches_own_uuid u)).
  reflexivity.
Qed.

Lemma created_user_is_found_witness :
  let rq := mkRequest POST_users "" [("name", "Carol"); ("email", "carol@example.org")] in
  let carol := mkUser "7" "Carol" "carol@example.org" None 10 in
  let r := mkResponse 200 (JObj [("success", JBool true); ("data", user_json carol)]) in
  sent at_sign_shape rq quiet = Some r
  /\ sent at_sign_shape (mkRequest GET_users_uuid "7" []) (after at_sign_shape rq quiet)
     = Some r.
Proof.
  intros rq carol r. split; [reflexivity|].
  apply (created_user_is_found at_sign_shape rq quiet r carol []); reflexivity.
Defined.

(** A POST /users with an email in use is refused and stores nothing,
    whatever else happens to the request. *)
Lemma taken_email_refused
      (rfc_email : string -> bool) (rq : request) (w : world) (e : string) :
  target rq = POST_users ->
  prop "email" (req_body rq) = Some e ->
  email_taken e (db w) = true ->
  option_map status (sent rfc_email rq w) = Some 400
  /\ db (after rfc_email rq w) = db w.
Proof.
  intros Hroute Hemail Htaken.
  destruct (find_user_by_email _ _ Htaken) as [u Hu].
  run_route. rewrite Hroute.
  destruct (validationResult _ _); simpl; [|auto].
  split_fault w; simpl; [auto|].
  rewrite Hemail, Hu; auto.
Qed.

(** X12. POST /users is not repeatable: once a request has been answered
    200, the same request run next is answered 400 and stores nothing. *)
Theorem second_create_is_refused
        (rfc_email : string -> bool) (rq : request) (w : world) (r : response) :
  target rq = POST_users ->
  sent rfc_email rq w = Some r ->
  status r = 200 ->
  option_map status (sent rfc_email rq (after rfc_email rq w)) = Some 400
  /\ db (after rfc_email rq (after rfc_email rq w)) = db (after rfc_email rq w).
Proof.
  intros Hroute Hsent Hs.
  pose proof (sent_200 _ _ _ _ Hsent Hs) as Hh. rewrite Hroute in Hh.
  apply post_users_200 in Hh as (u & _ & Hdb & _ & Hemail & _); [|exact Hs].
  apply (taken_email_refused rfc_email rq _ (u_email u) Hroute Hemail).
  apply email_taken_In. rewrite Hdb; cbn [users].
  apply in_or_app; right; now left.
Qed.

Lemma second_create_is_refused_witness :
  let rq := mkRequest POST_users "" [("name", "Carol"); ("email", "carol@example.org")] in
  option_map status (sent at_sign_shape rq quiet) = Some 200
  /\ option_map status (sent at_sign_shape rq (after at_sign_shape rq quiet)) = Some 400
  /\ db (after at_sign_shape rq (after at_sign_shape rq quiet))
     = db (after at_sign_shape rq quiet).
Proof.
  intros rq. split; [reflexivity|].
  apply (second_create_is_refused at_sign_shape rq quiet
           (mkResponse 200
              (JObj [("success", JBool true);
                     ("data", user_json (mkUser "7" "Carol" "carol@example.org" None 10))])));
    reflexivity.
Defined.

(** *** Updating users *)

Lemma find_replace_first {A} (p : A -> bool) (x old : A) (l : list A) :
  find p l = Some old -> p x = true -> find p (replace_first p x l) = Some x.
Proof.
  induction l as [|y l IH]; simpl; [discriminate|].
  destruct (p y) eqn:Hy; intros H Hx; simpl.
  - now rewrite Hx.
  - rewrite Hy. now apply IH.
Qed.

Lemma put_users_uuid_200 (rq : request) (w w' : world) (r : response) :
  put_users_uuid rq w = (Resolved r, w') ->
  status r = 200 ->
  exists old u,
    r = mkResponse 200 (JObj [("success", JBool true); ("data", user_json u)])
    /\ find_user (by_uuid (params_uuid rq)) (db w) = Some old
    /\ db w' = mkStore (replace_first (matches (by_uuid (params_uuid rq))) u
                                      (users (db w)))
                       (posts (db w)) (clock (db w)) (serial (db w))
    /\ u_uuid u = u_uuid old.
Proof.
  route_cases; intros H Hs; inversion H; subst; try discriminate Hs.
  write_effect.
  match goal with
  | E : _ \/ _ |- _ =>
      destruct E as [[_ [x E]] | (old & u & E & Hold & -> & Hid & _)];
      [ discriminate E
      | inversion E; subst; exists old, u; auto ]
  end.
Qed.



(** X14. A user that PUT /users/:uuid has updated is found as updated: when
    the request was answered 200 with a record, a GET /users/:uuid for the
    same uuid, run next and reaching the database, is answered 200 with the
    same record. *)
Theorem updated_user_is_found
        (rfc_email : string -> bool) (rq : request) (w : world)
        (r : response) (u : User) (b : body) :
  target rq = PUT_users_uuid ->
  sent rfc_email rq w = Some r ->
  status r = 200 ->
  field "data" (payload r) = Some (user_json u) ->
  hd false (faults (after rfc_email rq w)) = false ->
  sent rfc_email (mkRequest GET_users_uuid (params_uuid rq) b) (after rfc_email rq w)
  = Some (mkResponse 200 (JObj [("success", JBool true); ("data", user_json u)])).
Proof.
  intros Hroute Hsent Hs Hdata Hreach.
  pose proof (sent_200 _ _ _ _ Hsent Hs) as Hh. rewrite Hroute in Hh.
  apply put_users_uuid_200 in Hh as (old & u' & -> & Hold & Hdb & Hid); [|exact Hs].
  assert (Hj : Some (user_json u') = Some (user_json u)) by exact Hdata.
  apply (f_equal (fun o => match o with Some j => j | None => JNull end)) in Hj.
  apply user_json_inj in Hj. subst u'.
  pose proof (find_user_sound _ _ _ Hold) as [_ Hm].
  assert (Hmu : matches (by_uuid (params_uuid rq)) u = true).
  { revert Hm. unfold matches, by_uuid; simpl. now rewrite Hid. }
  run_route; cbn [target params_uuid].
  rewrite (query_reached _ _ _ Hreach); cbn [fst snd].
  unfold find_user. rewrite Hdb; cbn [users].
  rewrite (find_replace_first _ _ _ _ Hold Hmu). reflexivity.
Qed.

Lemma updated_user_is_found_witness :
  let rq := mkRequest PUT_users_uuid "u2"
                      [("name", "Robert"); ("email", "robert@example.org")] in
  let robert := mkUser "u2" "Robert" "robert@example.org" None 9 in
  let r := mkResponse 200 (JObj [("success", JBool true); ("data", user_json robert)]) in
  sent at_sign_shape rq quiet = Some r
  /\ sent at_sign_shape (mkRequest GET_users_uuid "u2" []) (after at_sign_shape rq quiet)
     = Some r.
Proof.
  intros rq robert r. split; [reflexivity|].
  apply (updated_user_is_found at_sign_shape rq quiet r robert []); reflexivity.
Defined.

(** *** Deleting users *)

Lemma uuid_known_false (id : string) (s : store) :
  (forall u, In u (users s) -> u_uuid u <> id) -> uuid_known id s = false.
Proof.
  intros H. unfold uuid_known.
  destruct (existsb _ (users s)) eqn:E; [|reflexivity].
  apply existsb_exists in E as (u & Hu & Heq). apply String.eqb_eq in Heq.
  exfalso. apply (H u Hu). congruence.
Qed.

Lemma removed_uuid_unknown (l1 l2 : list User) (u : User) (s s' : store) :
  users s = l1 ++ u :: l2 -> users s' = l1 ++ l2 ->
  NoDup (map u_uuid (users s)) ->
  uuid_known (u_uuid u) s' = false.
Proof.
  intros Hs Hs' Hnd. rewrite Hs, map_app in Hnd; simpl in Hnd.
  apply NoDup_remove_2 in Hnd.
  apply uuid_known_false. intros v Hv Heq. apply Hnd.
  rewrite <- Heq, <- map_app, <- Hs'. now apply in_map.
Qed.

Lemma no_posts_of (s : store) (u : User) :
  posts_of s u = [] ->
  existsb (fun p => String.eqb (p_userUuid p) (u_uuid u)) (posts s) = false.
Proof.
  unfold posts_of. induction (posts s) as [|p ps IH]; simpl; [reflexivity|].
  destruct (String.eqb (p_userUuid p) (u_uuid u)); [discriminate|exact IH].
Qed.

Lemma delete_users_uuid_200 (rq : request) (w w' : world) (r : response) :
  delete_users_uuid rq w = (Resolved r, w') ->
  status r = 200 ->
  exists u l1 l2,
    find_user (by_uuid (params_uuid rq)) (db w) = Some u
    /\ users (db w) = l1 ++ u :: l2
    /\ users (db w') = l1 ++ l2
    /\ posts (db w') = posts (db w).
Proof.
  route_cases; intros H Hs; inversion H; subst; try discriminate Hs.
  write_effect.
  match goal with
  | E : _ \/ _ |- _ =>
      destruct E as [[_ [x E]] | (u & E & Hu & -> & _)]; [discriminate E|];
      destruct (remove_first_split _ _ _ Hu) as (l1 & l2 & H1 & H2 & _);
      exists u, l1, l2; auto
  end.
Qed.

(** X15. DELETE /users/:uuid deletes the user when its call reaches the
    database, the uuid is that of a persisted user and that user has no
    posts: the answer is 200 with [{ success: true, message: "User deleted" }],
    that one user is taken out of the users and the posts are left; and when
    identifiers are unique, the uuid is then unknown. *)
Theorem delete_users_removes
        (rfc_email : string -> bool) (rq : request) (w : world) (u : User) :
  target rq = DELETE_users_uuid ->
  hd false (faults w) = false ->
  find_user (by_uuid (params_uuid rq)) (db w) = Some u ->
  posts_of (db w) u = [] ->
  sent rfc_email rq w
  = Some (mkResponse 200 (JObj [("success", JBool true);
                                ("message", JStr "User deleted")]))
  /\ posts (db (after rfc_email rq w)) = posts (db w)
  /\ (exists before behind,
        users (db w) = before ++ u :: behind
        /\ users (db (after rfc_email rq w)) = before ++ behind)
  /\ (NoDup (map u_uuid (users (db w))) ->
      uuid_known (params_uuid rq) (db (after rfc_email rq w)) = false).
Proof.
  intros Hroute Hreach Hu Hposts.
  apply no_posts_of in Hposts.
  destruct (remove_first_split _ _ _ Hu) as (l1 & l2 & H1 & H2 & _).
  pose proof (find_user_sound _ _ _ Hu) as [_ Hid]. apply matches_by_uuid in Hid.
  run_route. rewrite Hroute.
  rewrite (query_reached _ _ _ Hreach); cbn [fst snd].
  unfold delete_user. rewrite Hu, Hposts; cbn [fst snd db users posts].
  split; [reflexivity|]. split; [reflexivity|]. split.
  - exists l1, l2. auto.
  - intros Hnd. rewrite <- Hid.
    apply (removed_uuid_unknown l1 l2 u (db w)); auto.
    cbn [users]. rewrite Hid. exact H2.
Qed.

Lemma delete_users_removes_witness :
  let rq := mkRequest DELETE_users_uuid "u2" [] in
  find_user (by_uuid "u2") (db quiet) = Some bob
  /\ posts_of (db quiet) bob = []
  /\ sent at_sign_shape rq quiet
     = Some (mkResponse 200 (JObj [("success", JBool true);
                                   ("message", JStr "User deleted")]))
  /\ users (db (after at_sign_shape rq quiet)) = [alice].
Proof.
  intros rq. split; [reflexivity|]. split; [reflexivity|].
  split; [|reflexivity].
  apply (delete_users_removes at_sign_shape rq quiet bob); reflexivity.
Defined.

(** X16. With unique identifiers, a deleted user is gone: once
    DELETE /users/:uuid has been answered 200, a GET /users/:uuid for that
    uuid run next is answered 404, and a second DELETE is answered 500. *)
Theorem deleted_user_is_gone
        (rfc_email : string -> bool) (rq : request) (w : world)
        (r : response) (b : body) :
  target rq = DELETE_users_uuid ->
  sent rfc_email rq w = Some r ->
  status r = 200 ->
  NoDup (map u_uuid (users (db w))) ->
  option_map status
    (sent rfc_email (mkRequest GET_users_uuid (params_uuid rq) b) (after rfc_email rq w))
  = Some 404
  /\ option_map status (sent rfc_email rq (after rfc_email rq w)) = Some 500.
Proof.
  intros Hroute Hsent Hs Hnd.
  pose proof (sent_200 _ _ _ _ Hsent Hs) as Hh. rewrite Hroute in Hh.
  apply delete_users_uuid_200 in Hh as (u & l1 & l2 & Hu & H1 & H2 & _); [|exact Hs].
  pose proof (find_user_sound _ _ _ Hu) as [_ Hid]. apply matches_by_uuid in Hid.
  pose proof (removed_uuid_unknown l1 l2 u _ _ H1 H2 Hnd) as Hgone.
  rewrite Hid in Hgone. apply find_user_unknown in Hgone.
  set (w' := after rfc_email rq w) in *.
  split.
  - run_route; cbn [target params_uuid].
    split_fault w'; cbn [fst snd]; [reflexivity|].
    rewrite Hgone. reflexivity.
  - run_route. rewrite Hroute.
    split_fault w'; cbn [fst snd]; [reflexivity|].
    unfold delete_user. rewrite Hgone. reflexivity.
Qed.

Lemma deleted_user_is_gone_witness :
  let rq := mkRequest DELETE_users_uuid "u2" [] in
  option_map status (sent at_sign_shape rq quiet) = Some 200
  /\ NoDup (map u_uuid (users (db quiet)))
  /\ option_map status
       (sent at_sign_shape (mkRequest GET_users_uuid "u2" []) (after at_sign_shape rq quiet))
     = Some 404
  /\ option_map status (sent at_sign_shape rq (after at_sign_shape rq quiet)) = Some 500.
Proof.
  intros rq.
  assert (Hnd : NoDup (map u_uuid (users (db quiet)))).
  { repeat constructor; simpl; intuition discriminate. }
  split; [reflexivity|]. split; [exact Hnd|].
  apply (deleted_user_is_gone at_sign_shape rq quiet
           (mkResponse 200 (JObj [("success", JBool true);
                                  ("message", JStr "User deleted")])) []);
    try reflexivity.
  exact Hnd.
Defined.

(** *** Posts *)

Lemma find_user_known (id : string) (s : store) :
  uuid_known id s = true -> exists u, find_user (by_uuid id) s = Some u.
Proof.
  unfold uuid_known, find_user, matches, by_uuid; simpl.
  induction (users s) as [|u us IH]; simpl; [discriminate|].
  destruct (String.eqb id (u_uuid u)); simpl; [eauto|exact IH].
Qed.





(** X18. The rules of POST /posts do not look at [userUuid]: a request with
    a title and a body passes validation without it, or with the uuid of no
    persisted user, and is then answered 500 by the handler, and nothing is
    stored. *)
Theorem post_posts_needs_user
        (rfc_email : string -> bool) (rq : request) (w : world) :
  target rq = POST_posts ->
  valid rfc_email rq = true ->
  prop "userUuid" (req_body rq) = None
  \/ (exists id, prop "userUuid" (req_body rq) = Some id
                 /\ uuid_known id (db w) = false) ->
  option_map status (sent rfc_email rq w) = Some 500
  /\ db (after rfc_email rq w) = db w.
Proof.
  intros Hroute Hvalid Howner.
  unfold valid in Hvalid. rewrite Hroute in Hvalid; cbn [rules_of] in Hvalid.
  destruct (valid_post_fields _ (isEmpty_nil _ Hvalid)) as (t & x & Ht & _ & Hx & _).
  run_route. rewrite Hroute, Hvalid; cbn [negb].
  split_fault w; cbn [fst snd]; [auto|].
  unfold create_post. rewrite Ht, Hx.
  destruct Howner as [-> | (id & -> & Hunknown)]; [auto|].
  rewrite (find_user_unknown _ _ Hunknown). auto.
Qed.

Lemma post_posts_needs_user_witness :
  let rq := mkRequest POST_posts "" [("title", "Hi"); ("body", "There")] in
  valid at_sign_shape rq = true
  /\ option_map status (sent at_sign_shape rq quiet) = Some 500
  /\ db (after at_sign_shape rq quiet) = db quiet.
Proof.
  intros rq. split; [reflexivity|].
  apply (post_posts_needs_user at_sign_shape rq quiet); try reflexivity.
  left; reflexivity.
Defined.



(** *** Finding users *)

(** X21. GET /users/:uuid finds a persisted user: when its call reaches the
    database and the uuid is known, the answer is 200 with the stored record
    of that uuid, and the request leaves the database as it was. *)
Theorem get_users_uuid_finds
        (rfc_email : string -> bool) (rq : request) (w : world) :
  target rq = GET_users_uuid ->
  hd false (faults w) = false ->
  uuid_known (params_uuid rq) (db w) = true ->
  exists u,
    In u (users (db w))
    /\ u_uuid u = params_uuid rq
    /\ sent rfc_email rq w
       = Some (mkResponse 200 (JObj [("success", JBool true); ("data", user_json u)]))
    /\ db (after rfc_email rq w) = db w.
Proof.
  intros Hroute Hreach Hknown.
  destruct (find_user_known _ _ Hknown) as [u Hu].
  pose proof (find_user_sound _ _ _ Hu) as [Hin Hid]. apply matches_by_uuid in Hid.
  exists u. split; [exact Hin|]. split; [exact Hid|].
  run_route. rewrite Hroute.
  rewrite (query_reached _ _ _ Hreach); cbn [fst snd].
  rewrite Hu. split; reflexivity.
Qed.

Lemma get_users_uuid_finds_witness :
  let rq := mkRequest GET_users_uuid "u1" [] in
  uuid_known (params_uuid rq) (db quiet) = true
  /\ exists u,
       In u (users (db quiet))
       /\ u_uuid u = "u1"
       /\ sent at_sign_shape rq quiet
          = Some (mkResponse 200 (JObj [("success", JBool true); ("data", user_json u)]))
       /\ db (after at_sign_shape rq quiet) = db quiet.
Proof.
  intros rq. split; [reflexivity|].
  apply (get_users_uuid_finds at_sign_shape rq quiet); reflexivity.
Defined.
